(** * Xorcist: the rule resolver, the replacer engine and the selector
    synthesizer, embedded from the JavaScript sources.

    - [Background.getMergedRules]   src/background.js
    - [Replacer.*]                  the XorcistReplacer object
    - [Reporter.generateSelector]   src/content/reporter.js

    JavaScript strings are sequences of UTF-16 code units; they are modelled
    as [list N].  The browser's built-ins that the engine calls (regular
    expressions, CSS selector queries, the HTML fragment parser, case
    mapping, CSS.escape) are the fields of the class [Host]. *)

From Stdlib Require Import NArith Ascii String.
From stdpp Require Import base decidable option list gmap.

Set Warnings "-register-all".
Local Open Scope N_scope.

(* ================================================================== *)
(** ** JavaScript strings *)

Abbreviation jsstring := (list N).

(** An ASCII literal as a JavaScript string. *)
Definition js (s : string) : jsstring :=
  List.map N_of_ascii (list_ascii_of_string s).
Arguments js _%_string.

Module JS.

(** Truthiness of an optional string property: [undefined] and the empty
    string are falsy. *)
Definition truthy (o : option jsstring) : bool :=
  match o with
  | Some (_ :: _) => true
  | _ => false
  end.

(** [s.startsWith(p)] *)
Fixpoint startsWith (s p : jsstring) : bool :=
  match p, s with
  | [], _ => true
  | _ :: _, [] => false
  | c :: p', d :: s' => (c =? d) && startsWith s' p'
  end.

(** [s.includes(p)]: some suffix of [s] starts with [p]. *)
Fixpoint includes (s p : jsstring) : bool :=
  startsWith s p ||
  match s with
  | [] => false
  | _ :: s' => includes s' p
  end.

(** WhiteSpace and LineTerminator code units: what [trim] strips and what
    [\s] matches. *)
Definition isWhiteSpace (c : N) : bool :=
  ((9 <=? c) && (c <=? 13)) || (c =? 32) || (c =? 160) || (c =? 5760)
  || ((8192 <=? c) && (c <=? 8202)) || (c =? 8232) || (c =? 8233)
  || (c =? 8239) || (c =? 8287) || (c =? 12288) || (c =? 65279).

Fixpoint trimStart (s : jsstring) : jsstring :=
  match s with
  | c :: s' => if isWhiteSpace c then trimStart s' else s
  | [] => []
  end.

Definition trimEnd (s : jsstring) : jsstring := rev (trimStart (rev s)).

(** [s.trim()] *)
Definition trim (s : jsstring) : jsstring := trimEnd (trimStart s).

(** [s.split(/\s+/)]: maximal runs of white space separate the pieces; a
    leading or trailing run yields an empty first or last piece. *)
Fixpoint split_ws_aux (cur : jsstring) (in_sep : bool) (s : jsstring)
  : list jsstring :=
  match s with
  | [] => [rev cur]
  | c :: s' =>
      if isWhiteSpace c
      then if in_sep then split_ws_aux cur true s'
           else rev cur :: split_ws_aux [] true s'
      else split_ws_aux (c :: cur) false s'
  end.

Definition split_ws (s : jsstring) : list jsstring := split_ws_aux [] false s.

(** [parts.join(sep)] *)
Fixpoint join (sep : jsstring) (parts : list jsstring) : jsstring :=
  match parts with
  | [] => []
  | [p] => p
  | p :: ps => p ++ sep ++ join sep ps
  end.

(** Decimal digits of a number, as [String(n)] gives them. *)
Fixpoint digits_aux (fuel : nat) (n : N) (acc : jsstring) : jsstring :=
  match fuel with
  | O => acc
  | S fuel' =>
      let acc' := (48 + n mod 10) :: acc in
      if n / 10 =? 0 then acc' else digits_aux fuel' (n / 10) acc'
  end.

Definition ofNat (n : nat) : jsstring :=
  digits_aux (S n) (N.of_nat n) [].

End JS.

(* ================================================================== *)
(** ** The stored data: rules, tags, and the storage record *)

Module Action.
(** [rule.action]: the three actions of the engine, or any other string,
    which no [switch] of the engine has a case for. *)
Inductive t :=
| replace
| remove
| hide
| other (name : jsstring).
End Action.

Module Rule.
(** A stored rule.  Optional properties are [None] when absent. *)
Record t := mk {
  id : jsstring;
  hostname : option jsstring;
  selector : option jsstring;
  contentPattern : option jsstring;
  action : Action.t;
  replacement : option jsstring;
  enabled : option bool;
  tags : option (list jsstring);
}.
End Rule.

Module Tag.
(** Tags are created with [enabled: true] and toggled with a boolean. *)
Record t := mk {
  id : jsstring;
  name : jsstring;
  enabled : bool;
}.
End Tag.

Module Stored.
(** What [chrome.storage.local.get] answers; an absent key is [None]. *)
Record t := mk {
  communityRules : option (list Rule.t);
  userRules : option (list Rule.t);
  disabledRuleIds : option (list jsstring);
  enabled : option bool;
  tags : option (list Tag.t);
}.
End Stored.

(** [x || []] *)
Definition orEmpty {A} (o : option (list A)) : list A := default [] o.

(* ================================================================== *)
(** ** src/background.js: getMergedRules *)

Module Background.

Section Resolve.
Variable stored : Stored.t.

Definition disabled : gset jsstring :=
  list_to_set (orEmpty (Stored.disabledRuleIds stored)).

Definition tags : list Tag.t := orEmpty (Stored.tags stored).

Definition disabledTagIds : gset jsstring :=
  list_to_set
    (List.map Tag.id (List.filter (fun t => negb (Tag.enabled t)) tags)).

Definition isRuleEnabled (rule : Rule.t) : bool :=
  if bool_decide (Rule.id rule ∈ disabled) then false
  else if bool_decide (Rule.enabled rule = Some false) then false
  else
    match Rule.tags rule with
    | Some (tg :: tgs) =>
        if existsb (fun tagId => bool_decide (tagId ∈ disabledTagIds))
             (tg :: tgs)
        then false else true
    | _ => true
    end.

Definition getMergedRules : list Rule.t :=
  let userRules :=
    List.filter isRuleEnabled (orEmpty (Stored.userRules stored)) in
  let communityRules :=
    List.filter isRuleEnabled (orEmpty (Stored.communityRules stored)) in
  userRules ++ communityRules.
End Resolve.

End Background.

(* ================================================================== *)
(** ** The document tree

    A node carries its identity.  The tree itself holds what the engine
    reads (tag names, [id], [className], text); the two things the engine
    writes on an element, the [data-xorcist-processed] attribute and
    [style.display = 'none'], are sets of node identities of the page.
    Subtrees cut from the document stay reachable through the static node
    lists the engine iterates over; they live in [detached]. *)

Module Dom.

Record attrs := mkAttrs {
  tagName : jsstring;
  idAttr : jsstring;                (* [element.id], empty when unset *)
  className : option jsstring;      (* [None]: not a string (SVG) *)
}.

Inductive node :=
| Text (nid : N) (data : jsstring)
| Element (nid : N) (a : attrs) (childNodes : list node).

Definition nodeId (n : node) : N :=
  match n with Text i _ | Element i _ _ => i end.

Definition isElement (n : node) : bool :=
  match n with Element _ _ _ => true | Text _ _ => false end.

Definition childNodes (n : node) : list node :=
  match n with Element _ _ ch => ch | Text _ _ => [] end.

(** [element.children]: the child elements. *)
Definition children (n : node) : list node :=
  List.filter isElement (childNodes n).

(** [node.textContent] *)
Fixpoint textContent (n : node) : jsstring :=
  match n with
  | Text _ d => d
  | Element _ _ ch => List.flat_map textContent ch
  end.

(** The subtree whose root has identity [i], in document order. *)
Fixpoint find (i : N) (n : node) : option node :=
  if nodeId n =? i then Some n
  else match n with
       | Text _ _ => None
       | Element _ _ ch =>
           (fix go (l : list node) : option node :=
              match l with
              | [] => None
              | c :: l' =>
                  match find i c with
                  | Some r => Some r
                  | None => go l'
                  end
              end) ch
       end.

(** The element one of whose child nodes has identity [i]. *)
Fixpoint parentIn (i : N) (n : node) : option node :=
  match n with
  | Text _ _ => None
  | Element _ _ ch =>
      if existsb (fun c => nodeId c =? i) ch then Some n
      else (fix go (l : list node) : option node :=
              match l with
              | [] => None
              | c :: l' =>
                  match parentIn i c with
                  | Some r => Some r
                  | None => go l'
                  end
              end) ch
  end.

(** The descendant elements of [n], in document order. *)
Fixpoint descendants (n : node) : list node :=
  match n with
  | Text _ _ => []
  | Element _ _ ch =>
      (fix go (l : list node) : list node :=
         match l with
         | [] => []
         | c :: l' =>
             (if isElement c then c :: descendants c else []) ++ go l'
         end) ch
  end.

(** [n] and all its descendant elements, in document order. *)
Definition selfAndDescendants (n : node) : list node :=
  if isElement n then n :: descendants n else [].

(** The tree without the subtrees rooted at [i]. *)
Fixpoint prune (i : N) (n : node) : node :=
  match n with
  | Text _ _ => n
  | Element j a ch =>
      Element j a
        ((fix go (l : list node) : list node :=
            match l with
            | [] => []
            | c :: l' =>
                if nodeId c =? i then go l' else prune i c :: go l'
            end) ch)
  end.

(** The tree with the child nodes of element [i] replaced by [new]. *)
Fixpoint replaceChildren (i : N) (new : list node) (n : node) : node :=
  match n with
  | Text _ _ => n
  | Element j a ch =>
      if j =? i then Element j a new
      else Element j a (List.map (replaceChildren i new) ch)
  end.

(** The tree with the data of text node [i] set to [s]. *)
Fixpoint setData (i : N) (s : jsstring) (n : node) : node :=
  match n with
  | Text j d => if j =? i then Text j s else n
  | Element j a ch => Element j a (List.map (setData i s) ch)
  end.

(** What the HTML fragment parser produces: nodes without identity yet.
    [marked] tells whether the markup itself carries the
    [data-xorcist-processed] attribute. *)
Inductive frag :=
| FText (data : jsstring)
| FElement (a : attrs) (marked : bool) (ch : list frag).

(** Gives the parsed nodes identities from [next] on; returns the next
    free identity and the identities of the marked elements. *)
Fixpoint instantiate (next : N) (f : frag) : (N * gset N) * node :=
  match f with
  | FText d => ((next + 1, ∅), Text next d)
  | FElement a m ch =>
      let '((n', s'), ch') :=
        (fix go (nx : N) (l : list frag) : (N * gset N) * list node :=
           match l with
           | [] => ((nx, ∅), [])
           | f' :: l' =>
               let '((n1, s1), x) := instantiate nx f' in
               let '((n2, s2), xs) := go n1 l' in
               ((n2, s1 ∪ s2), x :: xs)
           end) (next + 1) ch in
      ((n', if m then {[next]} ∪ s' else s'), Element next a ch')
  end.

Fixpoint instantiateAll (next : N) (l : list frag)
  : (N * gset N) * list node :=
  match l with
  | [] => ((next, ∅), [])
  | f :: l' =>
      let '((n1, s1), x) := instantiate next f in
      let '((n2, s2), xs) := instantiateAll n1 l' in
      ((n2, s1 ∪ s2), x :: xs)
  end.

Record page := mkPage {
  documentElement : option node;    (* the [html] element *)
  detached : list node;             (* roots of the cut subtrees *)
  processed : gset N;               (* has [data-xorcist-processed] *)
  hidden : gset N;                  (* [style.display] is ['none'] *)
  fresh : N;                        (* next unused node identity *)
}.

(** All the trees of the page. *)
Definition forest (p : page) : list node :=
  match documentElement p with
  | Some r => r :: detached p
  | None => detached p
  end.

Fixpoint firstSome {A B} (f : A → option B) (l : list A) : option B :=
  match l with
  | [] => None
  | x :: l' => match f x with Some r => Some r | None => firstSome f l' end
  end.

Definition lookup (i : N) (p : page) : option node :=
  firstSome (find i) (forest p).

(** [node.parentElement] *)
Definition parentElement (i : N) (p : page) : option node :=
  firstSome (parentIn i) (forest p).

(** [element.hasAttribute('data-xorcist-processed')] *)
Definition hasAttribute (i : N) (p : page) : bool :=
  bool_decide (i ∈ processed p).

(** [element.setAttribute('data-xorcist-processed', 'true')] *)
Definition setAttribute (i : N) (p : page) : page :=
  mkPage (documentElement p) (detached p) ({[i]} ∪ processed p)
         (hidden p) (fresh p).

(** [element.style.display = 'none'] *)
Definition setDisplayNone (i : N) (p : page) : page :=
  mkPage (documentElement p) (detached p) (processed p)
         ({[i]} ∪ hidden p) (fresh p).

(** Cuts [i] out of a tree it is a proper descendant of: the tree
    without it, and the subtree as a new root. *)
Definition cutFrom (i : N) (t : node) : list node :=
  if nodeId t =? i then [t]
  else match find i t with
       | Some sub => [prune i t; sub]
       | None => [t]
       end.

(** [node.remove()]: a node without parent stays as it is. *)
Definition removeNode (i : N) (p : page) : page :=
  match documentElement p with
  | Some r =>
      if nodeId r =? i
      then mkPage None (r :: detached p) (processed p) (hidden p) (fresh p)
      else match find i r with
           | Some sub =>
               mkPage (Some (prune i r)) (sub :: detached p)
                      (processed p) (hidden p) (fresh p)
           | None =>
               mkPage (Some r) (List.flat_map (cutFrom i) (detached p))
                      (processed p) (hidden p) (fresh p)
           end
  | None =>
      mkPage None (List.flat_map (cutFrom i) (detached p))
             (processed p) (hidden p) (fresh p)
  end.

(** [element.innerHTML = html], the markup already parsed to [frags]:
    the old child nodes lose their parent, the new ones are created. *)
Definition setInnerHTML (i : N) (frags : list frag) (p : page) : page :=
  let old := match lookup i p with Some n => childNodes n | None => [] end in
  let '((next, marks), new) := instantiateAll (fresh p) frags in
  mkPage (option_map (replaceChildren i new) (documentElement p))
         (List.map (replaceChildren i new) (detached p) ++ old)
         (marks ∪ processed p) (hidden p) next.

(** [textNode.textContent = s] *)
Definition setTextContent (i : N) (s : jsstring) (p : page) : page :=
  mkPage (option_map (setData i s) (documentElement p))
         (List.map (setData i s) (detached p))
         (processed p) (hidden p) (fresh p).

End Dom.

(* ================================================================== *)
(** ** The browser

    What the engine calls and the repository does not define.  A
    [SyntaxError] of [new RegExp] or [querySelectorAll] is the answer
    [None]; [throws] tells which DOM mutations raise an exception. *)

Inductive Mutation :=
| m_remove          (* [element.remove()] *)
| m_innerHTML       (* [element.innerHTML = ...] *)
| m_display         (* [element.style.display = ...] *)
| m_textContent.    (* [textNode.textContent = ...] *)

Class Host := {
  regexp : Type;
  (** [new RegExp(pattern, 'gi')] *)
  RegExp_gi : jsstring → option regexp;
  (** [regex.lastIndex = 0; regex.test(s)] *)
  regexp_test : regexp → jsstring → bool;
  (** [s.replace(regex, replacement)] *)
  string_replace : jsstring → regexp → jsstring → jsstring;
  (** [s.toLowerCase()] *)
  toLowerCase : jsstring → jsstring;
  (** [document.querySelectorAll(selector)], as node identities *)
  querySelectorAll : jsstring → Dom.page → option (list N);
  (** the parser behind the [innerHTML] setter *)
  parseFragment : jsstring → list Dom.frag;
  (** [CSS.escape(s)] *)
  CSS_escape : jsstring → jsstring;
  throws : Mutation → N → bool;
}.

(* ================================================================== *)
(** ** XorcistReplacer *)

Module Replacer.

Record state := mkState {
  rules : list Rule.t;
  enabled : bool;
  appliedCount : nat;
  page : Dom.page;
}.

(** How a method ends: it returns, or an exception leaves it; either way
    the mutations made so far stay. *)
Inductive outcome :=
| Done (s : state)
| Threw (s : state).

Definition final (o : outcome) : state :=
  match o with Done s | Threw s => s end.

Definition M := state → outcome.

Definition skip : M := Done.

Definition andThen (m1 m2 : M) : M :=
  fun s => match m1 s with Done s' => m2 s' | Threw s' => Threw s' end.

(** [try { m } catch (e) { }] *)
Definition tryCatch (m : M) : M :=
  fun s => Done (final (m s)).

(** [for (const x of l) body(x)] over a static list *)
Fixpoint forOf {A} (l : list A) (body : A → M) : M :=
  match l with
  | [] => skip
  | x :: l' => andThen (body x) (forOf l' body)
  end.

Definition setPage (f : Dom.page → Dom.page) (s : state) : state :=
  mkState (rules s) (enabled s) (appliedCount s) (f (page s)).

Definition incApplied (s : state) : state :=
  mkState (rules s) (enabled s) (S (appliedCount s)) (page s).

(** *** loadRules *)

Section Resolve.
Variable stored : Stored.t.

Definition disabled : gset jsstring :=
  list_to_set (orEmpty (Stored.disabledRuleIds stored)).

Definition tags : list Tag.t := orEmpty (Stored.tags stored).

Definition disabledTagIds : gset jsstring :=
  list_to_set
    (List.map Tag.id (List.filter (fun t => negb (Tag.enabled t)) tags)).

Definition isRuleEnabled (rule : Rule.t) : bool :=
  if bool_decide (Rule.id rule ∈ disabled) then false
  else if bool_decide (Rule.enabled rule = Some false) then false
  else
    match Rule.tags rule with
    | Some (tg :: tgs) =>
        if existsb (fun tagId => bool_decide (tagId ∈ disabledTagIds))
             (tg :: tgs)
        then false else true
    | _ => true
    end.

Definition loadRules (s : state) : state :=
  let userRules :=
    List.filter isRuleEnabled (orEmpty (Stored.userRules stored)) in
  let communityRules :=
    List.filter isRuleEnabled (orEmpty (Stored.communityRules stored)) in
  mkState (userRules ++ communityRules)
          (negb (bool_decide (Stored.enabled stored = Some false)))
          (appliedCount s) (page s).
End Resolve.

Section Engine.
Context {H : Host}.

Definition localName (n : Dom.node) : jsstring :=
  match n with
  | Dom.Element _ a _ => toLowerCase (Dom.tagName a)
  | Dom.Text _ _ => []
  end.

Definition tagIn (names : list jsstring) (n : Dom.node) : bool :=
  existsb (fun nm => bool_decide (localName n = nm)) names.

(** [document.body]: the first [body] or [frameset] child of the root. *)
Definition body (p : Dom.page) : option Dom.node :=
  match Dom.documentElement p with
  | Some r => List.find (tagIn [js "body"; js "frameset"]) (Dom.children r)
  | None => None
  end.

(** *** applyRuleToElement *)
Definition applyRuleToElement (element : N) (rule : Rule.t) : M :=
  fun s =>
    if Dom.hasAttribute element (page s) then Done s
    else
      let s1 := incApplied (setPage (Dom.setAttribute element) s) in
      match Rule.action rule with
      | Action.remove =>
          if throws m_remove element then Threw s1
          else Done (setPage (Dom.removeNode element) s1)
      | Action.replace =>
          if JS.truthy (Rule.replacement rule) then
            if throws m_innerHTML element then Threw s1
            else Done (setPage
                         (Dom.setInnerHTML element
                            (parseFragment
                               (default [] (Rule.replacement rule))))
                         s1)
          else Done s1
      | Action.hide =>
          if throws m_display element then Threw s1
          else Done (setPage (Dom.setDisplayNone element) s1)
      | Action.other _ => Done s1
      end.

(** *** applyRuleToTextNode *)
Definition substitute (textNode : N) (parent : N) (old new : jsstring)
  : M :=
  fun s =>
    if bool_decide (new ≠ old) then
      if throws m_textContent textNode then Threw s
      else Done (incApplied
                   (setPage (Dom.setAttribute parent)
                      (setPage (Dom.setTextContent textNode new) s)))
    else Done s.

Definition applyRuleToTextNode (textNode : N) (rule : Rule.t) : M :=
  fun s =>
    match Dom.parentElement textNode (page s) with
    | None => Done s
    | Some parent =>
        if Dom.hasAttribute (Dom.nodeId parent) (page s) then Done s
        else
          match RegExp_gi (default [] (Rule.contentPattern rule)) with
          | None => Done s
          | Some regex =>
              let text :=
                match Dom.lookup textNode (page s) with
                | Some n => Dom.textContent n
                | None => []
                end in
              match Rule.action rule with
              | Action.remove =>
                  substitute textNode (Dom.nodeId parent) text
                    (string_replace text regex []) s
              | Action.replace =>
                  substitute textNode (Dom.nodeId parent) text
                    (string_replace text regex
                       (default [] (Rule.replacement rule))) s
              | _ => Done s
              end
          end
    end.

(** *** replaceMatchingText *)

(** The text nodes below element [n] that [acceptNode] accepts, in
    document order; [above] tells whether a proper ancestor of [n]
    carries the marker. *)
Fixpoint acceptedTextNodes (marked : gset N) (above : bool)
    (n : Dom.node) : list Dom.node :=
  match n with
  | Dom.Text _ _ => []
  | Dom.Element i _ ch =>
      let closest := above || bool_decide (i ∈ marked) in
      let reject :=
        tagIn [js "script"; js "style"; js "noscript"; js "textarea";
               js "input"] n
        || closest in
      (fix go (l : list Dom.node) : list Dom.node :=
         match l with
         | [] => []
         | c :: l' =>
             match c with
             | Dom.Text _ _ => if reject then go l' else c :: go l'
             | Dom.Element _ _ _ =>
                 acceptedTextNodes marked closest c ++ go l'
             end
         end) ch
  end.

Definition replaceMatchingText (rule : Rule.t) (regex : regexp) : M :=
  fun s =>
    match body (page s) with
    | None => Threw s      (* createTreeWalker(null, ...) *)
    | Some b =>
        let above :=
          match Dom.documentElement (page s) with
          | Some r => Dom.hasAttribute (Dom.nodeId r) (page s)
          | None => false
          end in
        let nodesToProcess :=
          List.filter
            (fun n => regexp_test regex (Dom.textContent n))
            (acceptedTextNodes (Dom.processed (page s)) above b) in
        forOf (List.map Dom.nodeId nodesToProcess)
              (fun textNode => applyRuleToTextNode textNode rule) s
    end.

(** *** applyRuleToMatchingElements *)

(** What the normalisation of the short-pattern tier deletes: white
    space, hyphen, en and em dash, bullet, middle dot, and the ASCII
    punctuation | / \ : , ; . ! ? ' (double quote) ( ) [ ] { } *)
Definition isSeparator (c : N) : bool :=
  JS.isWhiteSpace c
  || existsb (N.eqb c)
       [45; 8211; 8212; 8226; 183; 124; 47; 92; 58; 44; 59; 46; 33; 63;
        39; 34; 40; 41; 91; 93; 123; 125].

Definition normalized (text : jsstring) : jsstring :=
  List.filter (fun c => negb (isSeparator c)) (toLowerCase text).

Definition shouldRemove (patternLen : nat) (text : jsstring) : bool :=
  if (patternLen <=? 3)%nat then
    (length (normalized text) <=? patternLen + 2)%nat
  else if (patternLen <=? 20)%nat then
    (length text <=? patternLen * 3)%nat
  else true.

(** The loop body reaches [applyRuleToElement] for [el]. *)
Definition elementQualifies (patternLen : nat) (regex : regexp)
    (p : Dom.page) (el : N) : bool :=
  if Dom.hasAttribute el p then false
  else
    match Dom.lookup el p with
    | None => false
    | Some n =>
        let text := JS.trim (Dom.textContent n) in
        match text with
        | [] => false
        | _ :: _ =>
            if negb (regexp_test regex text) then false
            else
              shouldRemove patternLen text
              && ((length (Dom.children n) =? 0)%nat
                  || (length text <? 100)%nat)
        end
    end.

(** [document.body.querySelectorAll('*:not(script):not(style):not(noscript)')] *)
Definition allElements (b : Dom.node) : list N :=
  List.map Dom.nodeId
    (List.filter
       (fun n => negb (tagIn [js "script"; js "style"; js "noscript"] n))
       (Dom.descendants b)).

Definition applyRuleToMatchingElements (rule : Rule.t) (regex : regexp)
  : M :=
  fun s =>
    match body (page s) with
    | None => Threw s      (* document.body is null *)
    | Some b =>
        let patternLen :=
          length (default [] (Rule.contentPattern rule)) in
        forOf (allElements b)
          (fun el s' =>
             if elementQualifies patternLen regex (page s') el
             then applyRuleToElement el rule s'
             else Done s') s
    end.

(** *** applyRuleByContent *)
Definition applyRuleByContent (rule : Rule.t) : M :=
  fun s =>
    match RegExp_gi (default [] (Rule.contentPattern rule)) with
    | None => Done s
    | Some regex =>
        match Rule.action rule with
        | Action.remove | Action.hide =>
            applyRuleToMatchingElements rule regex s
        | _ => replaceMatchingText rule regex s
        end
    end.

(** *** applyRuleToPage *)
Definition applyRuleBySelector (rule : Rule.t) : M :=
  fun s =>
    match querySelectorAll (default [] (Rule.selector rule)) (page s) with
    | None => Threw s
    | Some elements =>
        forOf elements
          (fun el s' =>
             if negb (Dom.hasAttribute el (page s'))
             then applyRuleToElement el rule s'
             else Done s') s
    end.

Definition applyRuleToPage (rule : Rule.t) : M :=
  if negb (JS.truthy (Rule.contentPattern rule))
     && negb (JS.truthy (Rule.selector rule))
  then skip
  else
    andThen
      (if JS.truthy (Rule.selector rule)
       then tryCatch (applyRuleBySelector rule) else skip)
      (if JS.truthy (Rule.contentPattern rule)
       then applyRuleByContent rule else skip).

(** *** applyAll *)
Definition appliesTo (hostname : jsstring) (rule : Rule.t) : bool :=
  if negb (JS.truthy (Rule.hostname rule))
     || bool_decide (Rule.hostname rule = Some (js "*"))
  then true
  else JS.includes hostname (default [] (Rule.hostname rule)).

Definition applyAll (hostname : jsstring) : M :=
  fun s =>
    if negb (enabled s) then Done s
    else
      let s0 := mkState (rules s) (enabled s) 0%nat (page s) in
      let applicableRules := List.filter (appliesTo hostname) (rules s) in
      match applicableRules with
      | [] => Done s0
      | _ :: _ => forOf applicableRules applyRuleToPage s0
      end.
End Engine.

End Replacer.

(* ================================================================== *)
(** ** src/content/reporter.js: generateSelector *)

Module Reporter.

Section Selector.
Context {H : Host}.

(** The nodes from [n] down to the node [i], [n] first. *)
Fixpoint pathTo (i : N) (n : Dom.node) : option (list Dom.node) :=
  if Dom.nodeId n =? i then Some [n]
  else match n with
       | Dom.Text _ _ => None
       | Dom.Element _ _ ch =>
           (fix go (l : list Dom.node) : option (list Dom.node) :=
              match l with
              | [] => None
              | c :: l' =>
                  match pathTo i c with
                  | Some r => Some (n :: r)
                  | None => go l'
                  end
              end) ch
       end.

(** [i] and its ancestors, [i] first. *)
Definition ancestry (i : N) (p : Dom.page) : list Dom.node :=
  match Dom.firstSome (pathTo i) (Dom.forest p) with
  | Some r => rev r
  | None => []
  end.

(** The class part of one level: the first two class names, those
    that are empty or the picker's own left out. *)
Definition classSelector (a : Dom.attrs) : jsstring :=
  match Dom.className a with
  | Some (c :: cs) =>
      let classes := firstn 2 (JS.split_ws (JS.trim (c :: cs))) in
      fold_left
        (fun selector cls =>
           if JS.truthy (Some cls)
              && negb (JS.startsWith cls (js "xorcist-"))
           then selector ++ js "." ++ CSS_escape cls
           else selector)
        classes []
  | _ => []
  end.

(** [siblings.indexOf(current)] for a [current] that is among them *)
Fixpoint indexOf (i : N) (l : list Dom.node) : nat :=
  match l with
  | [] => 0%nat
  | c :: l' => if Dom.nodeId c =? i then 0%nat else S (indexOf i l')
  end.

(** The [:nth-of-type] part of one level. *)
Definition nthOfType (current : Dom.node) (parent : option Dom.node)
  : jsstring :=
  match current, parent with
  | Dom.Element i a _, Some par =>
      let siblings :=
        List.filter
          (fun c =>
             match c with
             | Dom.Element _ b _ =>
                 bool_decide (Dom.tagName b = Dom.tagName a)
             | Dom.Text _ _ => false
             end)
          (Dom.children par) in
      if (1 <? length siblings)%nat
      then js ":nth-of-type(" ++ JS.ofNat (indexOf i siblings + 1)
           ++ js ")"
      else []
  | _, _ => []
  end.

(** The [while] loop: [chain] is [current] followed by its
    ancestors. *)
Fixpoint climb (stop : list N) (chain : list Dom.node)
    (path : list jsstring) : list jsstring :=
  match chain with
  | [] => path
  | current :: up =>
      if existsb (N.eqb (Dom.nodeId current)) stop then path
      else
        match current with
        | Dom.Element _ a _ =>
            let selector :=
              toLowerCase (Dom.tagName a) ++ classSelector a
              ++ nthOfType current (head up) in
            climb stop up (selector :: path)
        | Dom.Text _ _ => path
        end
  end.

Definition generateSelector (p : Dom.page) (element : N) : jsstring :=
  match Dom.lookup element p with
  | Some (Dom.Element _ a _) =>
      if JS.truthy (Some (Dom.idAttr a))
      then js "#" ++ CSS_escape (Dom.idAttr a)
      else
        let stop :=
          match Replacer.body p with
          | Some b => [Dom.nodeId b]
          | None => []
          end
          ++ match Dom.documentElement p with
             | Some r => [Dom.nodeId r]
             | None => []
             end in
        JS.join (js " > ") (climb stop (ancestry element p) [])
  | _ => []
  end.
End Selector.

End Reporter.

(* ================================================================== *)
(** ** A reference browser for closed examples

    Good for ASCII text, for patterns made of literals, [.], a postfixed
    [*], [^] and [$], for selectors that are a tag name, and for
    replacement markup that is plain text.  A pattern or selector with an
    opening bracket that is never closed is a [SyntaxError]. *)

Module RefHost.

Definition lowerChar (c : N) : N :=
  if (65 <=? c) && (c <=? 90) then c + 32 else c.

Definition lower (s : jsstring) : jsstring := List.map lowerChar s.

Definition eqChar (c t : N) : bool :=
  (c =? 46) || (lowerChar c =? lowerChar t).

(** [k] succeeds after zero or more [c]. *)
Fixpoint matchStar (c : N) (k : jsstring → bool) (text : jsstring) : bool :=
  k text ||
  match text with
  | t :: text' => eqChar c t && matchStar c k text'
  | [] => false
  end.

(** The pattern matches a prefix of the text. *)
Fixpoint matchHere (re : jsstring) (text : jsstring) : bool :=
  match re with
  | [] => true
  | c :: re' =>
      match re' with
      | 42 :: re'' => matchStar c (matchHere re'') text
      | _ =>
          if (c =? 36) && bool_decide (re' = [])
          then bool_decide (text = [])
          else match text with
               | t :: text' => eqChar c t && matchHere re' text'
               | [] => false
               end
      end
  end.

Fixpoint matchAnywhere (re : jsstring) (text : jsstring) : bool :=
  matchHere re text ||
  match text with
  | _ :: text' => matchAnywhere re text'
  | [] => false
  end.

Definition test (re text : jsstring) : bool :=
  match re with
  | 94 :: re' => matchHere re' text
  | _ => matchAnywhere re text
  end.

(** An opening bracket or parenthesis that is never closed. *)
Fixpoint unclosed (s : jsstring) : bool :=
  match s with
  | [] => false
  | c :: s' =>
      ((c =? 91) && negb (existsb (N.eqb 93) s'))
      || ((c =? 40) && negb (existsb (N.eqb 41) s'))
      || unclosed s'
  end.

Definition compile (pattern : jsstring) : option jsstring :=
  if unclosed pattern then None else Some pattern.

(** Replaces every occurrence of a literal pattern, letter case
    ignored. *)
Fixpoint replaceLiteral (fuel : nat) (text re by_ : jsstring) : jsstring :=
  match fuel, text with
  | S fuel', t :: text' =>
      if JS.startsWith (lower text) (lower re)
      then by_ ++ replaceLiteral fuel' (drop (length re) text) re by_
      else t :: replaceLiteral fuel' text' re by_
  | _, _ => text
  end.

Definition replace (text re by_ : jsstring) : jsstring :=
  match re with
  | [] => text
  | _ :: _ => replaceLiteral (length text) text re by_
  end.

Definition query (selector : jsstring) (p : Dom.page) : option (list N) :=
  if unclosed selector then None
  else
    Some (List.map Dom.nodeId
            (List.filter
               (fun n =>
                  match n with
                  | Dom.Element _ a _ =>
                      bool_decide (lower (Dom.tagName a) = lower selector)
                  | Dom.Text _ _ => false
                  end)
               (match Dom.documentElement p with
                | Some r => Dom.selfAndDescendants r
                | None => []
                end))).

Definition parse (html : jsstring) : list Dom.frag := [Dom.FText html].

(** No DOM mutation raises. *)
Definition browser : Host := {|
  regexp := jsstring;
  RegExp_gi := compile;
  regexp_test := test;
  string_replace := replace;
  toLowerCase := lower;
  querySelectorAll := query;
  parseFragment := parse;
  CSS_escape := fun s => s;
  throws := fun _ _ => false;
|}.

End RefHost.


(* ================================================================== *)
(** ** src/background.js: the functions that write the store

    A rule or tag is kept as the fields that code reads; [source],
    [metadata], [color] and [createdAt] are written and never read back by
    the functions below.  [chrome.storage.local] is taken to answer: the
    [catch] of each function only reports a rejected storage call.  The
    identifiers made from [Date.now()] and [Math.random()] are
    parameters. *)

Module Manager.

(** What a message handler answers: [{success: true, ...}] or
    [{success: false, error}]. *)
Inductive result (A : Type) :=
| success (payload : A)
| failure (error : jsstring).
Arguments success {A} _.
Arguments failure {A} _.

Definition withId (i : jsstring) (r : Rule.t) : Rule.t :=
  Rule.mk i (Rule.hostname r) (Rule.selector r) (Rule.contentPattern r)
    (Rule.action r) (Rule.replacement r) (Rule.enabled r) (Rule.tags r).

Definition withEnabled (b : bool) (r : Rule.t) : Rule.t :=
  Rule.mk (Rule.id r) (Rule.hostname r) (Rule.selector r)
    (Rule.contentPattern r) (Rule.action r) (Rule.replacement r) (Some b)
    (Rule.tags r).

Definition withTags (t : list jsstring) (r : Rule.t) : Rule.t :=
  Rule.mk (Rule.id r) (Rule.hostname r) (Rule.selector r)
    (Rule.contentPattern r) (Rule.action r) (Rule.replacement r)
    (Rule.enabled r) (Some t).

Definition tagWithEnabled (b : bool) (t : Tag.t) : Tag.t :=
  Tag.mk (Tag.id t) (Tag.name t) b.

(** [chrome.storage.local.set({communityRules})] and the like *)
Definition setCommunityRules (l : list Rule.t) (st : Stored.t) : Stored.t :=
  Stored.mk (Some l) (Stored.userRules st) (Stored.disabledRuleIds st)
    (Stored.enabled st) (Stored.tags st).

Definition setUserRules (l : list Rule.t) (st : Stored.t) : Stored.t :=
  Stored.mk (Stored.communityRules st) (Some l) (Stored.disabledRuleIds st)
    (Stored.enabled st) (Stored.tags st).

Definition setDisabledRuleIds (l : list jsstring) (st : Stored.t)
  : Stored.t :=
  Stored.mk (Stored.communityRules st) (Stored.userRules st) (Some l)
    (Stored.enabled st) (Stored.tags st).

Definition setTags (l : list Tag.t) (st : Stored.t) : Stored.t :=
  Stored.mk (Stored.communityRules st) (Stored.userRules st)
    (Stored.disabledRuleIds st) (Stored.enabled st) (Some l).

(** [rules.findIndex(r => r.id === ruleId)]; [None] is [-1]. *)
Definition findRule (ruleId : jsstring) (l : list Rule.t) : option nat :=
  fst <$> list_find (λ r, Rule.id r = ruleId) l.

(** [tags.findIndex(t => t.id === tagId)] *)
Definition findTag (tagId : jsstring) (l : list Tag.t) : option nat :=
  fst <$> list_find (λ t, Tag.id t = tagId) l.

(** *** toggleRule *)
Definition toggleRule (ruleId : jsstring) (enabled : bool) (st : Stored.t)
  : result unit * Stored.t :=
  let disabledRuleIds := orEmpty (Stored.disabledRuleIds st) in
  let userRules := orEmpty (Stored.userRules st) in
  match findRule ruleId userRules with
  | Some userRuleIndex =>
      (success (),
       setUserRules (alter (withEnabled enabled) userRuleIndex userRules) st)
  | None =>
      let disabledRuleIds :=
        if enabled
        then List.filter (λ id, negb (bool_decide (id = ruleId)))
               disabledRuleIds
        else if bool_decide (ruleId ∈ disabledRuleIds) then disabledRuleIds
             else disabledRuleIds ++ [ruleId] in
      (success (), setDisabledRuleIds disabledRuleIds st)
  end.

(** *** deleteUserRule *)
Definition deleteUserRule (ruleId : jsstring) (st : Stored.t)
  : result unit * Stored.t :=
  let userRules := orEmpty (Stored.userRules st) in
  let filtered :=
    List.filter (λ r, negb (bool_decide (Rule.id r = ruleId))) userRules in
  (success (), setUserRules filtered st).

(** *** deleteTag *)

(** The body of the [map] over the user rules. *)
Definition stripTag (tagId : jsstring) (rule : Rule.t) : Rule.t :=
  match Rule.tags rule with
  | Some tags =>
      if bool_decide (tagId ∈ tags)
      then withTags
             (List.filter (λ t, negb (bool_decide (t = tagId))) tags) rule
      else rule
  | None => rule
  end.

Definition deleteTag (tagId : jsstring) (st : Stored.t)
  : result unit * Stored.t :=
  let tags := orEmpty (Stored.tags st) in
  let userRules := orEmpty (Stored.userRules st) in
  let filteredTags :=
    List.filter (λ t, negb (bool_decide (Tag.id t = tagId))) tags in
  let updatedRules := List.map (stripTag tagId) userRules in
  (success (), setUserRules updatedRules (setTags filteredTags st)).

(** *** toggleTag *)
Definition toggleTag (tagId : jsstring) (enabled : bool) (st : Stored.t)
  : result unit * Stored.t :=
  let tags := orEmpty (Stored.tags st) in
  match findTag tagId tags with
  | None => (failure (js "Tag not found"), st)
  | Some index =>
      (success (), setTags (alter (tagWithEnabled enabled) index tags) st)
  end.

(** *** addTagToRule *)
Definition addTagToRule (ruleId tagId : jsstring) (st : Stored.t)
  : result unit * Stored.t :=
  let userRules := orEmpty (Stored.userRules st) in
  let tags := orEmpty (Stored.tags st) in
  if negb (existsb (λ t, bool_decide (Tag.id t = tagId)) tags)
  then (failure (js "Tag not found"), st)
  else
    match findRule ruleId userRules with
    | None => (failure (js "Rule not found"), st)
    | Some ruleIndex =>
        match userRules !! ruleIndex with
        | None => (success (), st)
        | Some rule =>
            let ruleTags := orEmpty (Rule.tags rule) in
            if bool_decide (tagId ∈ ruleTags) then (success (), st)
            else
              (success (),
               setUserRules
                 (alter (withTags (ruleTags ++ [tagId])) ruleIndex userRules)
                 st)
        end
    end.

(** *** removeTagFromRule *)
Definition removeTagFromRule (ruleId tagId : jsstring) (st : Stored.t)
  : result unit * Stored.t :=
  let userRules := orEmpty (Stored.userRules st) in
  match findRule ruleId userRules with
  | None => (failure (js "Rule not found"), st)
  | Some ruleIndex =>
      match userRules !! ruleIndex ≫= Rule.tags with
      | Some ruleTags =>
          (success (),
           setUserRules
             (alter
                (withTags
                   (List.filter (λ t, negb (bool_decide (t = tagId)))
                      ruleTags))
                ruleIndex userRules)
             st)
      | None => (success (), st)
      end
  end.

(** *** importUserRules *)



(** *** saveLocalRule and saveBatchRules *)

(** The [ruleData] of a message: any property may be missing. *)
Record ruleData := mkRuleData {
  d_id : option jsstring;
  d_hostname : option jsstring;
  d_selector : option jsstring;
  d_contentPattern : option jsstring;
  d_action : Action.t;
  d_replacement : option jsstring;
  d_enabled : option bool;
  d_tags : option (list jsstring);
}.

(** [{id: fresh, ...ruleData, source: 'user', enabled: true, ...}] *)
Definition newRule (fresh : jsstring) (d : ruleData) : Rule.t :=
  Rule.mk (default fresh (d_id d)) (d_hostname d) (d_selector d)
    (d_contentPattern d) (d_action d) (d_replacement d) (Some true)
    (d_tags d).

Definition saveLocalRule (fresh : jsstring) (d : ruleData) (st : Stored.t)
  : result jsstring * Stored.t :=
  let userRules := orEmpty (Stored.userRules st) in
  let rule := newRule fresh d in
  (success (Rule.id rule), setUserRules (userRules ++ [rule]) st).

Definition saveBatchRules (newId : nat → jsstring) (rulesData : list ruleData)
    (st : Stored.t) : result (list jsstring * nat) * Stored.t :=
  match rulesData with
  | [] => (failure (js "No rules to save"), st)
  | _ :: _ =>
      let userRules := orEmpty (Stored.userRules st) in
      let saved := imap (λ k, newRule (newId k)) rulesData in
      let savedIds := List.map Rule.id saved in
      (success (savedIds, length savedIds),
       setUserRules (userRules ++ saved) st)
  end.

(** *** migrateStorage *)

(** The store with the key [rules] of the old schema. *)
Record legacy := mkLegacy {
  rules : option (list Rule.t);
  current : Stored.t;
}.

Definition DEFAULT_TAGS : list Tag.t :=
  [Tag.mk (js "tag-social-media") (js "social-media") true;
   Tag.mk (js "tag-news") (js "news") true;
   Tag.mk (js "tag-ads") (js "ads") true;
   Tag.mk (js "tag-tech") (js "tech") true].

(** Every test but the last reads [stored], the answer of the one [get] at
    the start; the writes go to the store. *)
Definition migrateStorage (st : legacy) : legacy :=
  let stored := st in
  let st1 :=
    match rules stored, Stored.communityRules (current stored) with
    | Some old, None =>
        let migratedRules := List.map (withEnabled true) old in
        mkLegacy None
          (setDisabledRuleIds []
             (setUserRules [] (setCommunityRules migratedRules (current st))))
    | _, _ => st
    end in
  let st2 :=
    match Stored.communityRules (current stored) with
    | None => mkLegacy (rules st1) (setCommunityRules [] (current st1))
    | Some _ => st1
    end in
  let st3 :=
    match Stored.userRules (current stored) with
    | None => mkLegacy (rules st2) (setUserRules [] (current st2))
    | Some _ => st2
    end in
  match Stored.tags (current st3) with
  | None => mkLegacy (rules st3) (setTags DEFAULT_TAGS (current st3))
  | Some _ => st3
  end.

(** *** getDefaultTagColor *)
Definition tagColors : list jsstring :=
  [js "#4285f4"; js "#ea4335"; js "#fbbc04"; js "#34a853"; js "#673ab7";
   js "#e91e63"].

(** [None] would be [undefined]. *)
Definition getDefaultTagColor (name : jsstring) : option jsstring :=
  let hash := fold_left (λ acc char, acc + char) name 0 in
  tagColors !! N.to_nat (hash mod N.of_nat (length tagColors)).

(** *** sanitizeForBranch *)
Definition isBranchChar (c : N) : bool :=
  ((97 <=? c) && (c <=? 122)) || ((65 <=? c) && (c <=? 90))
  || ((48 <=? c) && (c <=? 57)) || (c =? 45).

Definition sanitizeForBranch (str : jsstring) : jsstring :=
  take 30 (List.map (λ c, if isBranchChar c then c else 45) str).

(** *** escapeRegex *)

(** One of [. * + ? ^ $ { } ( ) | [ ] \ ] *)
Definition isRegexSpecial (c : N) : bool :=
  existsb (N.eqb c) [46; 42; 43; 63; 94; 36; 123; 125; 40; 41; 124; 91; 93; 92].

Definition escapeRegex (str : jsstring) : jsstring :=
  List.flat_map (λ c, if isRegexSpecial c then [92; c] else [c]) str.

(** *** createTag *)
Section CreateTag.
Context {H : Host}.

(** [\w] *)
Definition isWordChar (c : N) : bool :=
  ((97 <=? c) && (c <=? 122)) || ((65 <=? c) && (c <=? 90))
  || ((48 <=? c) && (c <=? 57)) || (c =? 95).

(** [/^[\w\s-]+$/.test(name)] *)
Definition isTagName (name : jsstring) : bool :=
  negb (bool_decide (name = []))
  && forallb (λ c, isWordChar c || JS.isWhiteSpace c || (c =? 45)) name.

(** The identifier of the new tag: the name in lower case, each run of
    white space replaced by a hyphen, between [tag-] and [Date.now()]. *)
Definition newTagId (name : jsstring) (now : nat) : jsstring :=
  js "tag-" ++ JS.join (js "-") (JS.split_ws (toLowerCase name))
  ++ js "-" ++ JS.ofNat now.

(** [name] is [None] when the message carries no name. *)
Definition createTag (name : option jsstring) (now : nat) (st : Stored.t)
  : result Tag.t * Stored.t :=
  match name with
  | None => (failure (js "Tag name must be 2-30 characters"), st)
  | Some name =>
      if (length name <? 2)%nat || (30 <? length name)%nat
      then (failure (js "Tag name must be 2-30 characters"), st)
      else if negb (isTagName name)
      then (failure
              (js "Tag name can only contain letters, numbers, spaces, and hyphens"),
            st)
      else
        let tags := orEmpty (Stored.tags st) in
        if existsb
             (λ t, bool_decide
                     (toLowerCase (Tag.name t) = toLowerCase name))
             tags
        then (failure (js "Tag already exists"), st)
        else
          let tag := Tag.mk (newTagId name now) (JS.trim name) true in
          (success tag, setTags (tags ++ [tag]) st)
  end.

(** No two tags have the same name, upper and lower case taken as one. *)
Definition distinctNames (tags : list Tag.t) : Prop :=
  NoDup (List.map (λ t, toLowerCase (Tag.name t)) tags).
End CreateTag.

End Manager.

(* ================================================================== *)
(** ** The shared utility functions *)

Module Utils.

Section Branch.
Context {H : Host}.

(** [[a-z0-9-]] *)
Definition isBranchChar (c : N) : bool :=
  ((97 <=? c) && (c <=? 122)) || ((48 <=? c) && (c <=? 57)) || (c =? 45).

(** [s.replace(/-+/g, '-')]: of each run of hyphens one is left. *)
Fixpoint squeeze (s : jsstring) : jsstring :=
  match s with
  | [] => []
  | c :: s' =>
      if (c =? 45) && match s' with d :: _ => d =? 45 | [] => false end
      then squeeze s'
      else c :: squeeze s'
  end.

Definition sanitizeForBranch (str : jsstring) : jsstring :=
  take 30
    (squeeze
       (List.map (λ c, if isBranchChar c then c else 45) (toLowerCase str))).

(** Two hyphens in a row somewhere in [s]. *)
Fixpoint hyphenRun (s : jsstring) : bool :=
  match s with
  | [] => false
  | c :: s' =>
      ((c =? 45) && match s' with d :: _ => d =? 45 | [] => false end)
      || hyphenRun s'
  end.
End Branch.

End Utils.

(* ================================================================== *)
(** ** The popup and the options page *)

Module Popup.

(** The number the popup shows as active rules. *)
Definition rulesCount (stored : Stored.t) : nat :=
  let disabled : gset jsstring :=
    list_to_set (orEmpty (Stored.disabledRuleIds stored)) in
  let userRules :=
    List.filter
      (λ r, negb (bool_decide (Rule.enabled r = Some false))
            && negb (bool_decide (Rule.id r ∈ disabled)))
      (orEmpty (Stored.userRules stored)) in
  let communityRules :=
    List.filter (λ r, negb (bool_decide (Rule.id r ∈ disabled)))
      (orEmpty (Stored.communityRules stored)) in
  (length userRules + length communityRules)%nat.

End Popup.

Module Options.

Inductive ruleType := user | community.

(** The set [renderRulesAccordion] is given for each list. *)
Definition disabledIdsFor (type : ruleType) (stored : Stored.t)
  : gset jsstring :=
  match type with
  | community => list_to_set (orEmpty (Stored.disabledRuleIds stored))
  | user => ∅
  end.

(** [renderRuleItem]: the rule is drawn as disabled, its box unchecked. *)
Definition isDisabled (type : ruleType) (disabledIds : gset jsstring)
    (rule : Rule.t) : bool :=
  match type with
  | user => bool_decide (Rule.enabled rule = Some false)
  | community => bool_decide (Rule.id rule ∈ disabledIds)
  end.

(** [truncate(str, len)]; an absent string is [None]. *)
Definition truncate (str : option jsstring) (len : nat) : jsstring :=
  match str with
  | Some (c :: s) =>
      if (len <? length (c :: s))%nat then take len (c :: s) ++ js "..."
      else c :: s
  | _ => []
  end.

(** *** groupByHostname *)

(** The property names an object literal inherits from
    [Object.prototype]: [groups[host]] is truthy for them though nothing
    was stored. *)
Definition objectPrototypeKeys : list jsstring :=
  [js "constructor"; js "__proto__"; js "hasOwnProperty";
   js "isPrototypeOf"; js "propertyIsEnumerable"; js "toLocaleString";
   js "toString"; js "valueOf"; js "__defineGetter__";
   js "__defineSetter__"; js "__lookupGetter__"; js "__lookupSetter__"].

(** [rule.hostname || '*'] *)
Definition hostOf (rule : Rule.t) : jsstring :=
  match Rule.hostname rule with
  | Some (c :: s) => c :: s
  | _ => js "*"
  end.

(** One turn of the loop; [None] is the [TypeError] of [push] on an
    inherited property. *)
Definition addToGroup (groups : option (gmap jsstring (list Rule.t)))
    (rule : Rule.t) : option (gmap jsstring (list Rule.t)) :=
  match groups with
  | None => None
  | Some groups =>
      let host := hostOf rule in
      match groups !! host with
      | Some l => Some (<[host := l ++ [rule]]> groups)
      | None =>
          if bool_decide (host ∈ objectPrototypeKeys) then None
          else Some (<[host := [rule]]> groups)
      end
  end.

Definition groupByHostname (rules : list Rule.t)
  : option (gmap jsstring (list Rule.t)) :=
  fold_left addToGroup rules (Some ∅).

(** The rules of [host], in the order of [rules]. *)
Definition rulesOf (host : jsstring) (rules : list Rule.t) : list Rule.t :=
  List.filter (λ r, bool_decide (hostOf r = host)) rules.

(** The group [o] after the rules [l] were pushed to it; a group that
    was not there and gets nothing stays absent. *)
Definition joined (o : option (list Rule.t)) (l : list Rule.t)
  : option (list Rule.t) :=
  match o with
  | Some l0 => Some (l0 ++ l)
  | None => match l with [] => None | _ => Some l end
  end.

End Options.

(* ================================================================== *)
(** ** src/content/detector.js *)

Module Detector.

Section Scan.
Context {H : Host}.

(** [this.patterns.text], compiled. *)
Variable patterns : list regexp.

(** The text nodes below element [n] that the walker's [acceptNode]
    accepts; [above] tells whether a proper ancestor of [n] carries the
    marker. *)
Fixpoint acceptedTextNodes (marked : gset N) (above : bool) (n : Dom.node)
  : list Dom.node :=
  match n with
  | Dom.Text _ _ => []
  | Dom.Element i _ ch =>
      let closest := above || bool_decide (i ∈ marked) in
      let reject :=
        Replacer.tagIn
          [js "script"; js "style"; js "noscript"; js "textarea"; js "input"]
          n
        || closest in
      (fix go (l : list Dom.node) : list Dom.node :=
         match l with
         | [] => []
         | c :: l' =>
             match c with
             | Dom.Text _ _ => if reject then go l' else c :: go l'
             | Dom.Element _ _ _ => acceptedTextNodes marked closest c ++ go l'
             end
         end) ch
  end.

(** [findTextOccurrences()] on [document.body]: one occurrence for each
    accepted text node and each pattern with a match in it; [None] when there
    is no body for the walker. *)
Definition findTextOccurrences (p : Dom.page)
  : option (list (Dom.node * regexp)) :=
  match Replacer.body p with
  | None => None
  | Some b =>
      let above :=
        match Dom.documentElement p with
        | Some r => Dom.hasAttribute (Dom.nodeId r) p
        | None => false
        end in
      Some
        (List.flat_map
           (λ node,
              List.map (λ pattern, (node, pattern))
                (List.filter
                   (λ pattern, regexp_test pattern (Dom.textContent node))
                   patterns))
           (acceptedTextNodes (Dom.processed p) above b))
  end.
End Scan.

End Detector.

(* ================================================================== *)
(** ** Notions for the further properties *)

(** The tree without its text: identities, attributes and structure. *)
Fixpoint shape (n : Dom.node) : Dom.node :=
  match n with
  | Dom.Text i _ => Dom.Text i []
  | Dom.Element i a ch => Dom.Element i a (List.map shape ch)
  end.

(** Undoes [escapeRegex]: a backslash makes the next character literal. *)
Fixpoint unescape (s : jsstring) : jsstring :=
  match s with
  | [] => []
  | c :: s' =>
      if c =? 92 then
        match s' with
        | d :: s'' => d :: unescape s''
        | [] => [c]
        end
      else c :: unescape s'
  end.

(** No regular-expression operator is left bare: special characters come
    only in pairs, a backslash and the character it escapes. *)
Fixpoint escaped (s : jsstring) : bool :=
  match s with
  | [] => true
  | c :: s' =>
      if c =? 92 then
        match s' with
        | d :: s'' => Manager.isRegexSpecial d && escaped s''
        | [] => false
        end
      else negb (Manager.isRegexSpecial c) && escaped s'
  end.

(** The counter is behind the markers by [base] at most. *)
Definition counted (base : nat) (s : Replacer.state) : Prop :=
  (base + Replacer.appliedCount s
   ≤ size (Dom.processed (Replacer.page s)))%nat.

(** The counter is behind the markers by [base] exactly. *)
Definition counted_exactly (base : nat) (s : Replacer.state) : Prop :=
  (base + Replacer.appliedCount s)%nat
  = size (Dom.processed (Replacer.page s)).

(** The parser behind [innerHTML] never yields an element that carries
    the marker already. *)
Definition parsesUnmarked {H : Host} : Prop :=
  ∀ html next, (Dom.instantiateAll next (parseFragment html)).1.2 = ∅.

(** The tree, the rules and the flag are those of [s0]; markers and
    hidden elements are at least those of [s0]. *)
Definition sameTree (s0 s : Replacer.state) : Prop :=
  Dom.documentElement (Replacer.page s)
  = Dom.documentElement (Replacer.page s0)
  ∧ Dom.detached (Replacer.page s) = Dom.detached (Replacer.page s0)
  ∧ Dom.processed (Replacer.page s0) ⊆ Dom.processed (Replacer.page s)
  ∧ Dom.hidden (Replacer.page s0) ⊆ Dom.hidden (Replacer.page s)
  ∧ Replacer.rules s = Replacer.rules s0.

(** The trees of [s] are those of [s0] up to the data of text nodes; the
    hidden elements, the next identity and the rules are those of [s0]. *)
Definition sameShape (s0 s : Replacer.state) : Prop :=
  option_map shape (Dom.documentElement (Replacer.page s))
  = option_map shape (Dom.documentElement (Replacer.page s0))
  ∧ List.map shape (Dom.detached (Replacer.page s))
    = List.map shape (Dom.detached (Replacer.page s0))
  ∧ Dom.hidden (Replacer.page s) = Dom.hidden (Replacer.page s0)
  ∧ Dom.fresh (Replacer.page s) = Dom.fresh (Replacer.page s0)
  ∧ Replacer.rules s = Replacer.rules s0.

(* ================================================================== *)
(** ** The properties, in the words of the specification *)

Module Spec.

(** [tid] belongs to a tag of [T] whose [enabled] flag is false. *)
Definition tagDisabled (T : list Tag.t) (tid : jsstring) : Prop :=
  ∃ t, t ∈ T ∧ Tag.id t = tid ∧ Tag.enabled t = false.

(** A rule is effective: not in the overlay [D], its own flag is not
    false, none of its tags is disabled. *)
Definition effective (D : list jsstring) (T : list Tag.t) (r : Rule.t)
  : Prop :=
  (Rule.id r ∉ D)
  ∧ Rule.enabled r ≠ Some false
  ∧ ∀ tid, tid ∈ orEmpty (Rule.tags r) → ¬ tagDisabled T tid.

Definition stored_in (stored : Stored.t) (r : Rule.t) : Prop :=
  r ∈ orEmpty (Stored.userRules stored)
  ∨ r ∈ orEmpty (Stored.communityRules stored).

(** [h] occurs in [host] as a substring. *)
Definition contains (host h : jsstring) : Prop :=
  ∃ pre post, host = pre ++ h ++ post.

(** The hostname gate is closed for the rule: its hostname is set, is not
    the wildcard, and does not occur in the page's host. *)
Definition gated (host : jsstring) (rule : Rule.t) : Prop :=
  ∃ h, Rule.hostname rule = Some h ∧ h ≠ js "*" ∧ ¬ contains host h.

End Spec.

Section EngineSpec.
Context {H : Host}.
Import Replacer.

(** The length tier of a pattern of [patternLen] characters holds for
    [text]. *)
Definition tierHolds (patternLen : nat) (text : jsstring) : Prop :=
  ((patternLen ≤ 3)%nat →
   (length (Replacer.normalized text) ≤ patternLen + 2)%nat)
  ∧ ((3 < patternLen ≤ 20)%nat → (length text ≤ 3 * patternLen)%nat).

(** The three conditions on the element [n]: its trimmed text matches,
    the tier holds, and it is a leaf or its text is short. *)
Definition matchesHeuristic (patternLen : nat) (regex : regexp)
    (n : Dom.node) : Prop :=
  let text := JS.trim (Dom.textContent n) in
  regexp_test regex text = true
  ∧ tierHolds patternLen text
  ∧ (Dom.children n = [] ∨ (length text < 100)%nat).




(** A [hide] rule matched by content only. *)
Definition hideByContent (rule : Rule.t) : Prop :=
  Rule.action rule = Action.hide ∧ JS.truthy (Rule.selector rule) = false.

(** [s'] has the tree and the rules of [s], and at least its markers. *)
Definition extends (s s' : state) : Prop :=
  rules s' = rules s
  ∧ enabled s' = enabled s
  ∧ Dom.documentElement (page s') = Dom.documentElement (page s)
  ∧ Dom.detached (page s') = Dom.detached (page s)
  ∧ Dom.processed (page s) ⊆ Dom.processed (page s').

(** Nothing is left for the rule to do on the page. *)
Definition settled (rule : Rule.t) (p : Dom.page) : Prop :=
  JS.truthy (Rule.contentPattern rule) = true →
  ∀ regex,
    RegExp_gi (default [] (Rule.contentPattern rule)) = Some regex →
    ∃ b, body p = Some b
         ∧ ∀ el, el ∈ allElements b →
                 elementQualifies
                   (length (default [] (Rule.contentPattern rule)))
                   regex p el = false.

(** The element [i] carries the marker. *)
Definition marked (i : N) (s : state) : Prop := i ∈ Dom.processed (page s).

(** [m] keeps [I], however it ends. *)
Definition preserves (I : state → Prop) (m : M) : Prop :=
  ∀ s, I s → I (final (m s)).

End EngineSpec.

(** The qualification rule as the specification words it: for an
    unprocessed element, qualifying is the same as the three conditions. *)
Definition heuristic_as_worded : Prop :=
  ∀ (H : Host) (pattern : jsstring) (regex : regexp) (p : Dom.page) (el : N)
    (n : Dom.node),
    RegExp_gi pattern = Some regex →
    Dom.hasAttribute el p = false →
    Dom.lookup el p = Some n →
    (Replacer.elementQualifies (length pattern) regex p el = true
     ↔ matchesHeuristic (length pattern) regex n).

(** The boundary as the specification words it: no paragraph of 500
    characters that contains a 2-character pattern qualifies. *)
Definition boundary_as_worded : Prop :=
  ∀ (H : Host) (pattern : jsstring) (regex : regexp) (p : Dom.page) (el : N)
    (n : Dom.node),
    length pattern = 2%nat →
    RegExp_gi pattern = Some regex →
    Dom.hasAttribute el p = false →
    Dom.lookup el p = Some n →
    length (Dom.textContent n) = 500%nat →
    JS.includes (Dom.textContent n) pattern = true →
    Replacer.elementQualifies (length pattern) regex p el = false.


(** Idempotence as the specification words it: whenever two calls of the
    enabled engine in succession return, the second applies no mutation. *)
Definition idempotence_as_worded : Prop :=
  ∀ (H : Host) (hostname : jsstring) (s s1 s2 : Replacer.state),
    Replacer.enabled s = true →
    Replacer.applyAll hostname s = Replacer.Done s1 →
    Replacer.applyAll hostname s1 = Replacer.Done s2 →
    Replacer.appliedCount s2 = 0%nat ∧ Replacer.page s2 = Replacer.page s1.

(* ================================================================== *)
(** ** Rules, pages and stores for the closed examples *)

(** Local rules L1 (tagged t1) and L2, community rules C1 and C2, tag t1
    and rule C2 disabled. *)
Definition rule_L1 : Rule.t :=
  Rule.mk (js "L1") None None (Some (js "X")) Action.remove None None
    (Some [js "t1"]).

Definition rule_L2 : Rule.t :=
  Rule.mk (js "L2") None None (Some (js "X")) Action.hide None (Some true)
    (Some []).

Definition rule_C1 : Rule.t :=
  Rule.mk (js "C1") None None (Some (js "X")) Action.remove None None None.

Definition rule_C2 : Rule.t :=
  Rule.mk (js "C2") None None (Some (js "X")) Action.remove None None None.

Definition scenario_store : Stored.t :=
  Stored.mk (Some [rule_C1; rule_C2]) (Some [rule_L1; rule_L2])
    (Some [js "C2"]) None (Some [Tag.mk (js "t1") (js "news") false]).

Definition empty_page : Dom.page := Dom.mkPage None [] ∅ ∅ 0.

Definition idle : Replacer.state := Replacer.mkState [] true 0 empty_page.

Definition htmlPage (bodyNodes : list Dom.node) (fresh : N) : Dom.page :=
  Dom.mkPage
    (Some (Dom.Element 1 (Dom.mkAttrs (js "HTML") [] (Some []))
             [Dom.Element 2 (Dom.mkAttrs (js "HEAD") [] (Some [])) [];
              Dom.Element 3 (Dom.mkAttrs (js "BODY") [] (Some []))
                bodyNodes]))
    [] ∅ ∅ fresh.

Definition elem (i : N) (tag : string) (ch : list Dom.node) : Dom.node :=
  Dom.Element i (Dom.mkAttrs (js tag) [] (Some [])) ch.

(** An empty [span]. *)
Definition page_empty_span : Dom.page := htmlPage [elem 4 "SPAN" []] 5.

(** A paragraph of 500 characters: [ab] and 498 full stops. *)
Definition page_dotted : Dom.page :=
  htmlPage [elem 4 "P" [Dom.Text 5 (js "ab" ++ List.repeat 46 498)]] 6.

(** A [span] whose text is [ab]. *)
Definition page_ab : Dom.page :=
  htmlPage [elem 4 "SPAN" [Dom.Text 5 (js "ab")]] 6.

(** A paragraph whose text is [X]. *)
Definition page_X : Dom.page := htmlPage [elem 4 "P" [Dom.Text 5 (js "X")]] 6.

(** The rule set and the page on which a second run still removes an
    element: the [div] is left with the text [X] once its children are
    gone. *)
Definition page_nested : Dom.page :=
  htmlPage
    [elem 4 "DIV"
       [elem 5 "B" [Dom.Text 6 (js "aXa")];
        elem 7 "I" [Dom.Text 8 (js "X")];
        Dom.Text 9 (js "X")]] 10.

Definition rule_replace_X_by_Y : Rule.t :=
  Rule.mk (js "r") None None (Some (js "X")) Action.replace (Some (js "Y"))
    None None.

(** A selector rule with action [replace] and no replacement. *)
Definition rule_replace_nothing : Rule.t :=
  Rule.mk (js "r") None (Some (js "p")) None Action.replace None None None.




(** A rule that hides every paragraph. *)
Definition rule_hide_p : Rule.t :=
  Rule.mk (js "s") None (Some (js "p")) None Action.hide None None None.

Definition rule_hide_X : Rule.t :=
  Rule.mk (js "h") None None (Some (js "X")) Action.hide None None None.

Definition rule_remove_X : Rule.t :=
  Rule.mk (js "r") None None (Some (js "X")) Action.remove None None None.

Definition engine (rules : list Rule.t) (p : Dom.page) : Replacer.state :=
  Replacer.mkState rules true 0 p.

(** A rule that hides every paragraph on hosts that contain [twitter.com],
    and the same rule with a capital in its hostname. *)
Definition rule_hide_p_twitter : Rule.t :=
  Rule.mk (js "t") (Some (js "twitter.com")) (Some (js "p")) None Action.hide
    None None None.

Definition rule_hide_p_Twitter : Rule.t :=
  Rule.mk (js "T") (Some (js "Twitter.com")) (Some (js "p")) None Action.hide
    None None None.

(** A local rule and a community rule with the same id, which is in the
    overlay. *)
Definition colliding_store : Stored.t :=
  Stored.mk (Some [rule_C1]) (Some [Manager.withId (js "C1") rule_L2])
    (Some [js "C1"]) None None.

(** The store of the scenario with the tag enabled. *)
Definition all_on_store : Stored.t :=
  Stored.mk (Some [rule_C1; rule_C2]) (Some [rule_L1; rule_L2])
    (Some [js "C2"]) None (Some [Tag.mk (js "t1") (js "news") true]).


(** The page with the paragraph, its body marked. *)
Definition page_marked_body : Dom.page :=
  Dom.setAttribute 3 page_X.

(** A store with the one tag [work]. *)
Definition work_store : Stored.t :=
  Stored.mk None None None None (Some [Tag.mk (js "tag-work-1") (js "work") true]).

(* ================================================================== *)
(** ** The resolver *)

Section ResolverFacts.
Variable stored : Stored.t.

Let D := orEmpty (Stored.disabledRuleIds stored).
Let T := orEmpty (Stored.tags stored).

Lemma disabledTagIds_spec tid :
  tid ∈ Background.disabledTagIds stored ↔ Spec.tagDisabled T tid.
Proof.
  unfold Background.disabledTagIds, Background.tags, Spec.tagDisabled.
  rewrite elem_of_list_to_set, list_elem_of_In, in_map_iff.
  split.
  - intros (t & Hid & Hin). apply filter_In in Hin as [Hin Hen].
    exists t. rewrite list_elem_of_In. repeat split; auto.
    by destruct (Tag.enabled t).
  - intros (t & Hin & Hid & Hen). exists t. split; [done|].
    apply filter_In. rewrite <- list_elem_of_In. split; [done|].
    by rewrite Hen.
Qed.

Lemma isRuleEnabled_spec r :
  Background.isRuleEnabled stored r = true ↔ Spec.effective D T r.
Proof.
  unfold Background.isRuleEnabled, Spec.effective, Background.disabled.
  fold D. case_bool_decide as Hd.
  { rewrite elem_of_list_to_set in Hd. split; [done|]. by intros [? _]. }
  rewrite elem_of_list_to_set in Hd.
  case_bool_decide as He.
  { split; [done|]. by intros (_ & ? & _). }
  destruct (Rule.tags r) as [[|tg tgs]|] eqn:Htags; simpl orEmpty.
  - split; [|done]. intros _. repeat split; auto.
    intros tid Hin. by apply elem_of_nil in Hin.
  - destruct (existsb _ (tg :: tgs)) eqn:Hex.
    + split; [done|]. intros (_ & _ & Hall). exfalso.
      apply existsb_exists in Hex as (tid & Hin & Hb).
      apply bool_decide_eq_true in Hb.
      apply (Hall tid); [by apply list_elem_of_In|].
      by apply disabledTagIds_spec.
    + split; [|done]. intros _. repeat split; auto.
      intros tid Hin Hdis.
      assert (existsb
                (λ tagId, bool_decide
                            (tagId ∈ Background.disabledTagIds stored))
                (tg :: tgs) = true) as Habs; [|congruence].
      apply existsb_exists. exists tid. split.
      * by apply list_elem_of_In.
      * apply bool_decide_eq_true. by apply disabledTagIds_spec.
  - split; [|done]. intros _. repeat split; auto.
    intros tid Hin. by apply elem_of_nil in Hin.
Qed.

Lemma resolvers_agree_on_rules r :
  Replacer.isRuleEnabled stored r = Background.isRuleEnabled stored r.
Proof. reflexivity. Qed.

Lemma getMergedRules_elem r :
  r ∈ Background.getMergedRules stored
  ↔ Spec.stored_in stored r ∧ Spec.effective D T r.
Proof.
  unfold Background.getMergedRules, Spec.stored_in.
  rewrite elem_of_app, !list_elem_of_In, !filter_In, !isRuleEnabled_spec.
  tauto.
Qed.

Lemma filter_sublist {A} (f : A → bool) (l : list A) :
  List.filter f l `sublist_of` l.
Proof.
  induction l as [|x l IH]; simpl; [constructor|].
  destruct (f x); by constructor.
Qed.
End ResolverFacts.

Lemma loadRules_getMergedRules (stored : Stored.t) (s : Replacer.state) :
  Replacer.rules (Replacer.loadRules stored s)
  = Background.getMergedRules stored.
Proof.
  unfold Replacer.loadRules, Background.getMergedRules. simpl.
  f_equal; apply List.filter_ext; intros r; apply resolvers_agree_on_rules.
Qed.

(** C9: the background resolver and the content-side resolver compute
    the same effective rule list from the same stored collections,
    overlay and tags: the same rules in the same order. *)
Theorem resolvers_equivalent (stored : Stored.t) (s : Replacer.state) :
  Replacer.rules (Replacer.loadRules stored s)
  = Background.getMergedRules stored.
Proof.
  unfold Replacer.loadRules, Background.getMergedRules. simpl.
  f_equal; apply List.filter_ext; intros r; apply resolvers_agree_on_rules.
Qed.

(** C1: a stored rule is in the effective list, as either resolver
    computes it, exactly when its id is not in the disabled-id overlay, its
    own [enabled] flag is not false, and no id among its tags is the id of
    a tag whose [enabled] flag is false; for a rule without tags the tag
    condition disappears. *)
Theorem effectiveness_invariant (stored : Stored.t) (s : Replacer.state)
    (r : Rule.t) :
  let D := orEmpty (Stored.disabledRuleIds stored) in
  let T := orEmpty (Stored.tags stored) in
  (r ∈ Background.getMergedRules stored
   ↔ Spec.stored_in stored r ∧ Spec.effective D T r)
  ∧ (r ∈ Replacer.rules (Replacer.loadRules stored s)
     ↔ Spec.stored_in stored r ∧ Spec.effective D T r)
  ∧ (orEmpty (Rule.tags r) = [] →
     (r ∈ Replacer.rules (Replacer.loadRules stored s)
      ↔ Spec.stored_in stored r
        ∧ (Rule.id r ∉ D) ∧ Rule.enabled r ≠ Some false)).
Proof.
  intros D T. rewrite loadRules_getMergedRules.
  pose proof (getMergedRules_elem stored r) as Hiff. fold D T in Hiff.
  split; [done|]. split; [done|].
  intros Hnil. rewrite Hiff. unfold Spec.effective. rewrite Hnil.
  split.
  - intros (? & ? & ? & _). done.
  - intros (? & ? & ?). repeat split; auto.
    intros tid Hin. by apply elem_of_nil in Hin.
Qed.

Lemma effectiveness_invariant_witness :
  orEmpty (Rule.tags rule_C1) = []
  ∧ rule_C1 ∈ Replacer.rules (Replacer.loadRules scenario_store idle).
Proof.
  split; [done|].
  apply (proj2 (proj2 (effectiveness_invariant scenario_store idle rule_C1))
           eq_refl).
  split; [right; simpl; apply list_elem_of_here|].
  split; [|done]. simpl. apply not_elem_of_cons. split; [done|].
  apply not_elem_of_nil.
Defined.

(** C2: with both collections non-empty, the resolved list is the
    effective local rules followed by the effective community rules, each
    part a subsequence of its collection in stored order; so every
    effective local rule sits at a smaller index than every effective
    community rule. *)
Theorem priority_invariant (stored : Stored.t) (s : Replacer.state) :
  orEmpty (Stored.userRules stored) ≠ [] →
  orEmpty (Stored.communityRules stored) ≠ [] →
  let D := orEmpty (Stored.disabledRuleIds stored) in
  let T := orEmpty (Stored.tags stored) in
  ∃ us cs,
    Replacer.rules (Replacer.loadRules stored s) = us ++ cs
    ∧ Background.getMergedRules stored = us ++ cs
    ∧ us `sublist_of` orEmpty (Stored.userRules stored)
    ∧ cs `sublist_of` orEmpty (Stored.communityRules stored)
    ∧ (∀ r, r ∈ us
            ↔ r ∈ orEmpty (Stored.userRules stored) ∧ Spec.effective D T r)
    ∧ (∀ r, r ∈ cs
            ↔ r ∈ orEmpty (Stored.communityRules stored)
              ∧ Spec.effective D T r)
    ∧ (∀ i j a b, us !! i = Some a → cs !! j = Some b →
         (us ++ cs) !! i = Some a
         ∧ (us ++ cs) !! (length us + j)%nat = Some b
         ∧ (i < length us + j)%nat).
Proof.
  intros _ _ D T.
  exists (List.filter (Background.isRuleEnabled stored)
            (orEmpty (Stored.userRules stored))),
         (List.filter (Background.isRuleEnabled stored)
            (orEmpty (Stored.communityRules stored))).
  split; [by rewrite loadRules_getMergedRules|].
  split; [done|].
  split; [apply filter_sublist|]. split; [apply filter_sublist|].
  split; [|split].
  - intros r. by rewrite list_elem_of_In, filter_In, <- list_elem_of_In,
      isRuleEnabled_spec.
  - intros r. by rewrite list_elem_of_In, filter_In, <- list_elem_of_In,
      isRuleEnabled_spec.
  - intros i j a b Hi Hj. split; [by apply lookup_app_l_Some|].
    split.
    + by rewrite lookup_app_r, Nat.add_sub' by lia.
    + apply lookup_lt_Some in Hi. lia.
Qed.

Lemma priority_invariant_witness :
  orEmpty (Stored.userRules scenario_store) ≠ []
  ∧ orEmpty (Stored.communityRules scenario_store) ≠ []
  ∧ ∃ us cs,
      Replacer.rules (Replacer.loadRules scenario_store idle) = us ++ cs
      ∧ us `sublist_of` [rule_L1; rule_L2]
      ∧ cs `sublist_of` [rule_C1; rule_C2].
Proof.
  split; [done|]. split; [done|].
  destruct (priority_invariant scenario_store idle)
    as (us & cs & Hl & _ & Hus & Hcs & _); [done | done |].
  by exists us, cs.
Defined.

(* ================================================================== *)
(** ** Running the rule list *)

Section RunFacts.
Context {H : Host}.
Import Replacer.

Lemma forOf_app {A} (l1 l2 : list A) (body : A → M) s :
  forOf (l1 ++ l2) body s = andThen (forOf l1 body) (forOf l2 body) s.
Proof.
  revert s. induction l1 as [|x l1 IH]; intros s; simpl; [done|].
  unfold andThen in *. destruct (body x s); [apply IH | done].
Qed.

Lemma applyAll_unfold hostname s :
  applyAll hostname s
  = if negb (enabled s) then Done s
    else forOf (List.filter (appliesTo hostname) (rules s)) applyRuleToPage
           (mkState (rules s) (enabled s) 0 (page s)).
Proof. unfold applyAll. by destruct (List.filter _ _). Qed.

Lemma andThen_Done (m1 m2 : M) s s' :
  m1 s = Done s' → andThen m1 m2 s = m2 s'.
Proof. intros Hm. unfold andThen. by rewrite Hm. Qed.

(** Where a rule stands in the run: once the applicable rules in front of
    it have returned, the rule is applied if the gate lets it through, and
    then the applicable rules behind it. *)
Lemma applyAll_at hostname before rule after s s1 :
  enabled s = true →
  rules s = before ++ rule :: after →
  forOf (List.filter (appliesTo hostname) before) applyRuleToPage
    (mkState (rules s) (enabled s) 0 (page s)) = Done s1 →
  applyAll hostname s
  = if appliesTo hostname rule
    then andThen (applyRuleToPage rule)
           (forOf (List.filter (appliesTo hostname) after) applyRuleToPage)
           s1
    else forOf (List.filter (appliesTo hostname) after) applyRuleToPage s1.
Proof.
  intros Hon Hrules. rewrite applyAll_unfold.
  generalize (mkState (rules s) (enabled s) 0 (page s)).
  intros s0 Hbefore. rewrite Hon. cbn [negb].
  rewrite Hrules, List.filter_app, forOf_app.
  rewrite (andThen_Done _ _ _ _ Hbefore). cbn [List.filter].
  by destruct (appliesTo hostname rule).
Qed.
End RunFacts.

(* ================================================================== *)
(** ** The hostname gate *)

Lemma startsWith_spec (s p : jsstring) :
  JS.startsWith s p = true ↔ ∃ post, s = p ++ post.
Proof.
  revert s. induction p as [|c p IH]; intros s.
  - split; [by exists s | by destruct s].
  - destruct s as [|d s]; simpl.
    + split; [done | by intros [? ?]].
    + rewrite andb_true_iff, N.eqb_eq, IH. split.
      * intros [-> [post ->]]. by exists post.
      * intros [post Heq]. injection Heq as -> ->. eauto.
Qed.

Lemma includes_unfold (s p : jsstring) :
  JS.includes s p
  = JS.startsWith s p
    || match s with [] => false | _ :: s' => JS.includes s' p end.
Proof. by destruct s. Qed.

Lemma includes_spec (s p : jsstring) :
  JS.includes s p = true ↔ Spec.contains s p.
Proof.
  unfold Spec.contains. induction s as [|d s IH]; rewrite includes_unfold.
  - rewrite orb_false_r, startsWith_spec. split.
    + intros [post Heq]. by exists [], post.
    + intros (pre & post & Heq). symmetry in Heq.
      apply app_eq_nil in Heq as [-> Heq]. exists post. done.
  - rewrite orb_true_iff, startsWith_spec, IH. split.
    + intros [[post Heq] | (pre & post & Heq)].
      * by exists [], post.
      * exists (d :: pre), post. by rewrite Heq.
    + intros (pre & post & Heq). destruct pre as [|e pre].
      * left. by exists post.
      * right. injection Heq as -> ->. by exists pre, post.
  Qed.

Lemma gate_spec (host : jsstring) (rule : Rule.t) :
  Replacer.appliesTo host rule = false ↔ Spec.gated host rule.
Proof.
  unfold Replacer.appliesTo, Spec.gated.
  destruct (Rule.hostname rule) as [[|c h]|] eqn:Hh; simpl.
  - split; [done|]. intros (h & [= <-] & _ & Hno). destruct Hno.
    by exists [], host.
  - case_bool_decide as Hstar; simpl.
    + split; [done|]. intros (h' & [= <-] & Hne & _). congruence.
    + rewrite <- not_true_iff_false, includes_spec. split.
      * intros Hno. exists (c :: h). repeat split; congruence.
      * by intros (h' & [= <-] & _ & Hno).
  - split; [done|]. by intros (h & ? & _).
Qed.

(** C8: a rule is skipped entirely for a page exactly when its hostname
    is set, is not the wildcard, and does not occur in the page's host as a
    substring (code units compared as they are); a rule whose hostname is
    absent or the wildcard applies on every host.  Skipped entirely: in
    [applyAll], once the rules in front of it have returned, the rules
    behind it start from the very state those left, and the rule itself is
    not applied; otherwise it is applied to that state, and the rules behind
    it follow. *)
Theorem hostname_gate {H : Host} (hostname : jsstring) (rule : Rule.t)
    (rules : list Rule.t) :
  (Replacer.appliesTo hostname rule = false ↔ Spec.gated hostname rule)
  ∧ (rule ∈ List.filter (Replacer.appliesTo hostname) rules
     ↔ rule ∈ rules ∧ ¬ Spec.gated hostname rule)
  ∧ (Rule.hostname rule = None ∨ Rule.hostname rule = Some (js "*") →
     ∀ host, Replacer.appliesTo host rule = true ∧ ¬ Spec.gated host rule)
  ∧ (∀ before after s s1,
       Replacer.enabled s = true →
       Replacer.rules s = before ++ rule :: after →
       Replacer.forOf (List.filter (Replacer.appliesTo hostname) before)
         Replacer.applyRuleToPage
         (Replacer.mkState (Replacer.rules s) (Replacer.enabled s) 0
            (Replacer.page s)) = Replacer.Done s1 →
       (Spec.gated hostname rule →
        Replacer.applyAll hostname s
        = Replacer.forOf (List.filter (Replacer.appliesTo hostname) after)
            Replacer.applyRuleToPage s1)
       ∧ (¬ Spec.gated hostname rule →
          Replacer.applyAll hostname s
          = Replacer.andThen (Replacer.applyRuleToPage rule)
              (Replacer.forOf
                 (List.filter (Replacer.appliesTo hostname) after)
                 Replacer.applyRuleToPage) s1)).
Proof.
  split; [apply gate_spec|]. split; [|split].
  - rewrite list_elem_of_In, filter_In, <- list_elem_of_In, <- gate_spec.
    by rewrite not_false_iff_true.
  - intros Hh host.
    assert (¬ Spec.gated host rule) as Hopen.
    { intros (h & Hsome & Hne & _). destruct Hh as [Hh|Hh]; congruence. }
    split; [|done]. apply not_false_iff_true. by rewrite gate_spec.
  - intros before after s s1 Hon Hrules Hbefore.
    rewrite (applyAll_at hostname before rule after s s1 Hon Hrules Hbefore).
    split; intros Hgate.
    + apply gate_spec in Hgate. by rewrite Hgate.
    + rewrite <- gate_spec in Hgate. apply not_false_iff_true in Hgate.
      by rewrite Hgate.
Qed.

Lemma hostname_gate_witness :
  Replacer.applyAll (H := RefHost.browser) (js "mobile.twitter.com")
    (engine [rule_hide_p_Twitter] page_X)
  = Replacer.Done (engine [rule_hide_p_Twitter] page_X)
  ∧ 4 ∈ Dom.hidden
          (Replacer.page
             (Replacer.final
                (Replacer.applyAll (H := RefHost.browser)
                   (js "mobile.twitter.com")
                   (engine [rule_hide_p_twitter] page_X)))).
Proof.
  split.
  - apply (proj1 (proj2 (proj2 (proj2
             (hostname_gate (H := RefHost.browser) (js "mobile.twitter.com")
                rule_hide_p_Twitter [])))
             [] [] (engine [rule_hide_p_Twitter] page_X)
             (engine [rule_hide_p_Twitter] page_X) eq_refl eq_refl eq_refl)).
    exists (js "Twitter.com"). split; [done|]. split; [done|].
    rewrite <- includes_spec. by vm_compute.
  - rewrite (proj2 (proj2 (proj2 (proj2
               (hostname_gate (H := RefHost.browser)
                  (js "mobile.twitter.com") rule_hide_p_twitter [])))
               [] [] (engine [rule_hide_p_twitter] page_X)
               (engine [rule_hide_p_twitter] page_X) eq_refl eq_refl
               eq_refl)).
    + apply (bool_decide_unpack _). by vm_compute.
    + intros (h & [= <-] & _ & Hno). apply Hno.
      rewrite <- includes_spec. by vm_compute.
Defined.

(* ================================================================== *)
(** ** The remove / hide heuristic *)

Section HeuristicFacts.
Context {H : Host}.

Lemma shouldRemove_spec patternLen text :
  Replacer.shouldRemove patternLen text = true ↔ tierHolds patternLen text.
Proof.
  unfold Replacer.shouldRemove, tierHolds.
  destruct (Nat.leb_spec patternLen 3) as [H3|H3].
  - rewrite Nat.leb_le. split; [intros; split; lia | intros [? _]; lia].
  - destruct (Nat.leb_spec patternLen 20) as [H20|H20].
    + rewrite Nat.leb_le. split; [intros; split; lia | intros [_ ?]; lia].
    + split; [intros; split; lia | done].
Qed.

Lemma leaf_or_short (n : Dom.node) (text : jsstring) :
  (length (Dom.children n) =? 0)%nat || (length text <? 100)%nat = true
  ↔ Dom.children n = [] ∨ (length text < 100)%nat.
Proof.
  rewrite orb_true_iff, Nat.eqb_eq, Nat.ltb_lt.
  by rewrite length_zero_iff_nil.
Qed.

Lemma elementQualifies_spec patternLen regex p el :
  Replacer.elementQualifies patternLen regex p el = true
  ↔ Dom.hasAttribute el p = false
    ∧ ∃ n, Dom.lookup el p = Some n
           ∧ JS.trim (Dom.textContent n) ≠ []
           ∧ matchesHeuristic patternLen regex n.
Proof.
  unfold Replacer.elementQualifies, matchesHeuristic.
  destruct (Dom.hasAttribute el p); [split; [done | by intros [? _]]|].
  destruct (Dom.lookup el p) as [n|];
    [|split; [done | by intros (_ & n & ? & _)]].
  destruct (JS.trim (Dom.textContent n)) as [|c text] eqn:Htext.
  { split; [done|]. intros (_ & n' & [= <-] & Hne & _).
    by rewrite Htext in Hne. }
  destruct (regexp_test regex (c :: text)) eqn:Htest; simpl negb; cbv iota.
  - rewrite andb_true_iff, shouldRemove_spec, leaf_or_short. split.
    + intros [Htier Hleaf]. split; [done|]. exists n.
      rewrite Htext, Htest. done.
    + intros (_ & n' & [= <-] & _ & Hm). rewrite Htext in Hm.
      destruct Hm as (_ & ? & ?). done.
  - split; [done|]. intros (_ & n' & [= <-] & _ & Hm).
    rewrite Htext, Htest in Hm. by destruct Hm.
Qed.

Lemma normalized_length text :
  (length (Replacer.normalized text) ≤ length (toLowerCase text))%nat.
Proof. unfold Replacer.normalized. apply List.filter_length_le. Qed.
End HeuristicFacts.

(** C4, amended: an unprocessed element qualifies exactly when its trimmed
    text is not empty and matches the pattern, the length tier of the
    pattern holds, and the element is a leaf or its text is shorter than
    100 characters.  So an element whose text is a matched 2-character
    pattern qualifies, and for a pattern of at most 3 characters an element
    with more than pattern length + 2 characters left after the
    normalisation does not. *)
Theorem remove_heuristic {H : Host} (patternLen : nat) (regex : regexp)
    (p : Dom.page) (el : N) :
  (Replacer.elementQualifies patternLen regex p el = true
   ↔ Dom.hasAttribute el p = false
     ∧ ∃ n, Dom.lookup el p = Some n
            ∧ JS.trim (Dom.textContent n) ≠ []
            ∧ matchesHeuristic patternLen regex n)
  ∧ (∀ n, (∀ s, (length (toLowerCase s) ≤ 2 * length s)%nat) →
          Dom.hasAttribute el p = false →
          Dom.lookup el p = Some n →
          patternLen = 2%nat →
          length (JS.trim (Dom.textContent n)) = 2%nat →
          regexp_test regex (JS.trim (Dom.textContent n)) = true →
          Replacer.elementQualifies patternLen regex p el = true)
  ∧ (∀ n, Dom.lookup el p = Some n →
          (patternLen ≤ 3)%nat →
          (patternLen + 2
           < length (Replacer.normalized (JS.trim (Dom.textContent n))))%nat →
          Replacer.elementQualifies patternLen regex p el = false).
Proof.
  split; [apply elementQualifies_spec|]. split.
  - intros n Hlower Hattr Hn -> Hlen Htest.
    apply elementQualifies_spec. split; [done|]. exists n.
    split; [done|]. split; [by destruct (JS.trim (Dom.textContent n))|].
    split; [done|]. split; [|right; lia]. split; [|lia].
    intros _. pose proof (normalized_length (JS.trim (Dom.textContent n))).
    pose proof (Hlower (JS.trim (Dom.textContent n))). lia.
  - intros n Hn H3 Hlong. apply not_true_iff_false.
    rewrite elementQualifies_spec.
    intros (_ & n' & Hn' & _ & _ & [Htier _] & _).
    rewrite Hn in Hn'. injection Hn' as <-. specialize (Htier H3). lia.
Qed.

Lemma lower_length (s : jsstring) :
  (length (RefHost.lower s) ≤ 2 * length s)%nat.
Proof. unfold RefHost.lower. rewrite length_map. lia. Qed.

Lemma remove_heuristic_witness :
  Replacer.elementQualifies (H := RefHost.browser) 2 (js "ab") page_ab 4
  = true.
Proof.
  apply (proj1 (proj2 (remove_heuristic (H := RefHost.browser) 2 (js "ab")
                         page_ab 4))
           (elem 4 "SPAN" [Dom.Text 5 (js "ab")]) lower_length);
    by vm_compute.
Defined.

(** C4 as worded fails twice: an empty element meets the three conditions
    for the pattern [x*] and is skipped, and a 500-character paragraph made
    of [ab] and full stops qualifies for the pattern [ab]. *)
Lemma remove_heuristic_counterexample :
  ¬ heuristic_as_worded ∧ ¬ boundary_as_worded.
Proof.
  split.
  - intros Hclaim.
    specialize (Hclaim RefHost.browser (js "x*") (js "x*") page_empty_span 4
                  (elem 4 "SPAN" []) eq_refl eq_refl eq_refl).
    change (length (js "x*")) with 2%nat in Hclaim.
    assert (Replacer.elementQualifies (H := RefHost.browser) 2 (js "x*")
              page_empty_span 4 = false) as Hcode by (by vm_compute).
    rewrite Hcode in Hclaim. apply not_true_iff_false in Hcode.
    enough (false = true) by done. apply Hclaim.
    split; [by vm_compute|]. split; [|by left].
    split; [intros _; vm_compute; lia | lia].
  - intros Hclaim.
    specialize (Hclaim RefHost.browser (js "ab") (js "ab") page_dotted 4
                  (elem 4 "P" [Dom.Text 5 (js "ab" ++ List.repeat 46 498)])
                  eq_refl eq_refl eq_refl eq_refl).
    assert (Replacer.elementQualifies (H := RefHost.browser) 2 (js "ab")
              page_dotted 4 = true) as Hcode by (by vm_compute).
    change (length (js "ab")) with 2%nat in Hclaim.
    rewrite Hclaim in Hcode; [done | by vm_compute | by vm_compute].
Qed.

(* ================================================================== *)
(** ** The tree under a change of text *)

Lemma node_induction (P : Dom.node → Prop) :
  (∀ i d, P (Dom.Text i d)) →
  (∀ i a ch, Forall P ch → P (Dom.Element i a ch)) →
  ∀ n, P n.
Proof.
  intros Htext Helem. fix IH 1. intros [i d|i a ch]; [apply Htext|].
  apply Helem. induction ch as [|c ch IHch]; constructor; [apply IH|].
  apply IHch.
Qed.

Lemma nodeId_setData j d n : Dom.nodeId (Dom.setData j d n) = Dom.nodeId n.
Proof. destruct n as [i e|i a ch]; simpl; [by destruct (i =? j)|done]. Qed.

Lemma parentIn_unfold i k a ch :
  Dom.parentIn i (Dom.Element k a ch)
  = if existsb (λ c, Dom.nodeId c =? i) ch then Some (Dom.Element k a ch)
    else Dom.firstSome (Dom.parentIn i) ch.
Proof.
  cbn [Dom.parentIn]. destruct (existsb _ ch); [done|].
  induction ch as [|c ch IH]; [done|]. cbn [Dom.firstSome].
  by rewrite IH.
Qed.

(** Setting the data of a text node moves no node: every node keeps its
    parent, up to that data. *)
Lemma parentIn_setData i j d n :
  Dom.parentIn i (Dom.setData j d n) = Dom.setData j d <$> Dom.parentIn i n.
Proof.
  induction n as [k e|k a ch IH] using node_induction.
  - simpl. by destruct (k =? j).
  - cbn [Dom.setData]. rewrite !parentIn_unfold.
    assert (existsb (λ c, Dom.nodeId c =? i) (List.map (Dom.setData j d) ch)
            = existsb (λ c, Dom.nodeId c =? i) ch) as ->.
    { clear IH. induction ch as [|c ch IHch]; [done|].
      simpl. by rewrite nodeId_setData, IHch. }
    destruct (existsb _ ch); [done|].
    induction IH as [|c ch Hc _ IHch]; [done|].
    cbn [List.map Dom.firstSome]. rewrite Hc.
    destruct (Dom.parentIn i c); [done|]. apply IHch.
Qed.

Lemma parentElement_setTextContent i j d p :
  Dom.parentElement i (Dom.setTextContent j d p)
  = Dom.setData j d <$> Dom.parentElement i p.
Proof.
  unfold Dom.parentElement.
  assert (Dom.forest (Dom.setTextContent j d p)
          = List.map (Dom.setData j d) (Dom.forest p)) as ->.
  { unfold Dom.forest, Dom.setTextContent. simpl.
    by destruct (Dom.documentElement p). }
  induction (Dom.forest p) as [|t l IH]; [done|].
  cbn [List.map Dom.firstSome]. rewrite parentIn_setData.
  destruct (Dom.parentIn i t); [done|]. apply IH.
Qed.

(* ================================================================== *)
(** ** The mutator *)

Section Combinators.
Import Replacer.
Variable I : state → Prop.

Lemma preserves_skip : preserves I skip.
Proof. by intros s. Qed.

Lemma preserves_andThen m1 m2 :
  preserves I m1 → preserves I m2 → preserves I (andThen m1 m2).
Proof.
  intros H1 H2 s Hs. unfold andThen. specialize (H1 s Hs).
  destruct (m1 s) as [s'|s']; simpl in *; [by apply H2 | done].
Qed.

Lemma preserves_tryCatch m : preserves I m → preserves I (tryCatch m).
Proof. intros Hm s Hs. by apply Hm. Qed.

Lemma preserves_forOf {A} (l : list A) (body : A → M) :
  (∀ x, preserves I (body x)) → preserves I (forOf l body).
Proof.
  intros Hbody. induction l as [|x l IH]; simpl.
  - apply preserves_skip.
  - by apply preserves_andThen.
Qed.
End Combinators.

Section MutatorFacts.
Context {H : Host}.
Import Replacer.

Lemma hasAttribute_setAttribute i p :
  Dom.hasAttribute i (Dom.setAttribute i p) = true.
Proof.
  unfold Dom.hasAttribute, Dom.setAttribute. simpl.
  apply bool_decide_eq_true. set_solver.
Qed.

(** On a marked element [applyRuleToElement] does nothing. *)
Lemma applyRuleToElement_marked element rule s :
  Dom.hasAttribute element (page s) = true →
  applyRuleToElement element rule s = Done s.
Proof. intros Hm. unfold applyRuleToElement. by rewrite Hm. Qed.

(** What [applyRuleToElement] leaves behind on an unmarked element,
    whichever way it ends. *)
Lemma applyRuleToElement_unmarked element rule s :
  Dom.hasAttribute element (page s) = false →
  let s' := final (applyRuleToElement element rule s) in
  element ∈ Dom.processed (page s')
  ∧ Dom.processed (page s) ⊆ Dom.processed (page s')
  ∧ appliedCount s' = S (appliedCount s)
  ∧ rules s' = rules s ∧ enabled s' = enabled s.
Proof.
  intros Hm. unfold applyRuleToElement. rewrite Hm.
  destruct (Rule.action rule); simpl.
  - destruct (JS.truthy (Rule.replacement rule)); simpl.
    + destruct (throws m_innerHTML element); simpl.
      * repeat split; set_solver.
      * unfold Dom.setInnerHTML.
        destruct (Dom.instantiateAll _ _) as [[next marks] new].
        simpl. repeat split; set_solver.
    + repeat split; set_solver.
  - destruct (throws m_remove element); simpl.
    + repeat split; set_solver.
    + unfold Dom.removeNode; simpl.
      destruct (Dom.documentElement (page s)) as [r|]; simpl.
      * destruct (Dom.nodeId r =? element); simpl;
          [repeat split; set_solver|].
        destruct (Dom.find element r); simpl; repeat split; set_solver.
      * repeat split; set_solver.
  - destruct (throws m_display element); simpl; repeat split; set_solver.
  - repeat split; set_solver.
Qed.

(** The marker, once set, stays: no method of the engine clears it. *)
Lemma applyRuleToElement_keeps i element rule :
  preserves (marked i) (applyRuleToElement element rule).
Proof.
  intros s Hi. destruct (Dom.hasAttribute element (page s)) eqn:Hm.
  - by rewrite applyRuleToElement_marked.
  - pose proof (applyRuleToElement_unmarked element rule s Hm) as (_&?&_).
    unfold marked in *. set_solver.
Qed.

Lemma substitute_keeps i textNode parent old new :
  preserves (marked i) (substitute textNode parent old new).
Proof.
  intros s Hi. unfold substitute, marked in *.
  case_bool_decide; [|done].
  destruct (throws m_textContent textNode); simpl; set_solver.
Qed.

Lemma applyRuleToTextNode_keeps i textNode rule :
  preserves (marked i) (applyRuleToTextNode textNode rule).
Proof.
  intros s Hi. unfold applyRuleToTextNode.
  destruct (Dom.parentElement textNode (page s)); [|done].
  destruct (Dom.hasAttribute _ _); [done|].
  destruct (RegExp_gi _); [|done].
  destruct (Rule.action rule); try done; by apply substitute_keeps.
Qed.

Lemma applyRuleByContent_keeps i rule :
  preserves (marked i) (applyRuleByContent rule).
Proof.
  intros s Hi. unfold applyRuleByContent.
  destruct (RegExp_gi _) as [regex|]; [|done].
  assert (marked i (final (replaceMatchingText rule regex s))) as Ht.
  { unfold replaceMatchingText. destruct (body (page s)); [|done].
    apply preserves_forOf; [|done].
    intros x. apply applyRuleToTextNode_keeps. }
  assert (marked i (final (applyRuleToMatchingElements rule regex s)))
    as He.
  { unfold applyRuleToMatchingElements. destruct (body (page s)); [|done].
    apply preserves_forOf; [|done].
    intros el s' Hs'. destruct (elementQualifies _ _ _ _); [|done].
    by apply applyRuleToElement_keeps. }
  destruct (Rule.action rule); done.
Qed.

Lemma applyRuleBySelector_keeps i rule :
  preserves (marked i) (applyRuleBySelector rule).
Proof.
  intros s Hi. unfold applyRuleBySelector.
  destruct (querySelectorAll _ _); [|done].
  apply preserves_forOf; [|done].
  intros el s' Hs'. destruct (negb _); [|done].
  by apply applyRuleToElement_keeps.
Qed.

Lemma applyRuleToPage_keeps i rule :
  preserves (marked i) (applyRuleToPage rule).
Proof.
  unfold applyRuleToPage.
  destruct (_ && _); [apply preserves_skip|].
  apply preserves_andThen.
  - destruct (JS.truthy (Rule.selector rule)); [|apply preserves_skip].
    apply preserves_tryCatch, applyRuleBySelector_keeps.
  - destruct (JS.truthy (Rule.contentPattern rule));
      [apply applyRuleByContent_keeps | apply preserves_skip].
Qed.

Lemma applyAll_keeps i hostname : preserves (marked i) (applyAll hostname).
Proof.
  intros s Hi. unfold applyAll. destruct (negb (enabled s)); [done|].
  destruct (List.filter _ _) as [|r l] eqn:Hl; [done|].
  apply (preserves_forOf (marked i)); [|done].
  intros x. apply applyRuleToPage_keeps.
Qed.
End MutatorFacts.

(** C10: on an unprocessed element, a [replace] rule whose replacement is
    absent or empty returns normally, leaves the document as it is, marks
    the element and counts one application; from then on every rule and
    every scan skips the element, and the marker survives any later run. *)
Theorem replace_without_replacement {H : Host} (element : N) (rule : Rule.t)
    (s : Replacer.state) :
  Dom.hasAttribute element (Replacer.page s) = false →
  Rule.action rule = Action.replace →
  JS.truthy (Rule.replacement rule) = false →
  ∃ s',
    Replacer.applyRuleToElement element rule s = Replacer.Done s'
    ∧ Dom.documentElement (Replacer.page s')
      = Dom.documentElement (Replacer.page s)
    ∧ Dom.detached (Replacer.page s') = Dom.detached (Replacer.page s)
    ∧ Dom.hasAttribute element (Replacer.page s') = true
    ∧ Replacer.appliedCount s' = S (Replacer.appliedCount s)
    ∧ (∀ rule', Replacer.applyRuleToElement element rule' s'
                = Replacer.Done s')
    ∧ (∀ patternLen regex,
         Replacer.elementQualifies patternLen regex (Replacer.page s')
           element = false)
    ∧ (∀ hostname,
         Dom.hasAttribute element
           (Replacer.page (Replacer.final (Replacer.applyAll hostname s')))
         = true).
Proof.
  intros Hm Hact Hrep. eexists. split.
  { unfold Replacer.applyRuleToElement. by rewrite Hm, Hact, Hrep. }
  simpl. split; [done|]. split; [done|].
  assert (Dom.hasAttribute element
            (Dom.setAttribute element (Replacer.page s)) = true) as Hset
    by apply hasAttribute_setAttribute.
  split; [done|]. split; [done|]. split; [|split].
  - intros rule'. by apply applyRuleToElement_marked.
  - intros patternLen regex. unfold Replacer.elementQualifies.
    simpl. by rewrite Hset.
  - intros hostname. apply bool_decide_eq_true.
    apply (applyAll_keeps element hostname).
    by apply bool_decide_eq_true in Hset.
Qed.

Lemma replace_without_replacement_witness :
  ∃ s',
    Replacer.applyRuleToElement (H := RefHost.browser) 4
      rule_replace_nothing (engine [rule_replace_nothing] page_X)
    = Replacer.Done s'
    ∧ Replacer.appliedCount s' = 1%nat
    ∧ Dom.documentElement (Replacer.page s') = Dom.documentElement page_X.
Proof.
  destruct (replace_without_replacement (H := RefHost.browser) 4
              rule_replace_nothing (engine [rule_replace_nothing] page_X))
    as (s' & Hrun & Hdoc & _ & _ & Hcount & _); [done | done | done |].
  exists s'. split; [done|]. split; [done|]. done.
Defined.

Section TextRunFacts.
Context {H : Host}.
Import Replacer.

(** Below a marked parent [applyRuleToTextNode] does nothing. *)
Lemma applyRuleToTextNode_marked textNode rule s parent :
  Dom.parentElement textNode (page s) = Some parent →
  Dom.hasAttribute (Dom.nodeId parent) (page s) = true →
  applyRuleToTextNode textNode rule s = Done s.
Proof.
  intros Hparent Hm. unfold applyRuleToTextNode. by rewrite Hparent, Hm.
Qed.

(** What a substitution that changes the text leaves behind. *)
Lemma substitute_changed textNode parent old new s :
  new ≠ old →
  throws m_textContent textNode = false →
  substitute textNode parent old new s
  = Done (incApplied
            (setPage (Dom.setAttribute parent)
               (setPage (Dom.setTextContent textNode new) s))).
Proof.
  intros Hnew Hquiet. unfold substitute.
  by rewrite bool_decide_eq_true_2, Hquiet.
Qed.
End TextRunFacts.

(** C6: the mutator marks together with its mutation, at both
    granularities and for every action.  An unprocessed element is marked
    and counted before the action is applied, so it carries the marker
    whether the action returns or raises; from then on no rule is applied
    to it, no scan selects it, and the marker survives every later run.  A
    text run is mutated and its parent element marked in one step: however
    [applyRuleToTextNode] ends, either nothing changed or the parent is
    marked and the count is one more; when the substitution changes the
    text, the text is set, the parent is marked, and from then on no rule is
    applied to that text run, and the marker survives every later run. *)
Theorem mark_before_mutation {H : Host} (element textNode : N)
    (rule : Rule.t) (s : Replacer.state) :
  (Dom.hasAttribute element (Replacer.page s) = false →
   let s' := Replacer.final (Replacer.applyRuleToElement element rule s) in
   Dom.hasAttribute element (Replacer.page s') = true
   ∧ Replacer.appliedCount s' = S (Replacer.appliedCount s)
   ∧ (∀ rule', Replacer.applyRuleToElement element rule' s'
               = Replacer.Done s')
   ∧ (∀ patternLen regex,
        Replacer.elementQualifies patternLen regex (Replacer.page s')
          element = false)
   ∧ (∀ hostname,
        Dom.hasAttribute element
          (Replacer.page (Replacer.final (Replacer.applyAll hostname s')))
        = true))
  ∧ (∀ s', Replacer.applyRuleToTextNode textNode rule s = Replacer.Threw s' →
           s' = s)
  ∧ (∀ s', Replacer.applyRuleToTextNode textNode rule s = Replacer.Done s' →
           s' = s
           ∨ ∃ parent,
               Dom.parentElement textNode (Replacer.page s) = Some parent
               ∧ Dom.hasAttribute (Dom.nodeId parent) (Replacer.page s')
                 = true
               ∧ Replacer.appliedCount s' = S (Replacer.appliedCount s))
  ∧ (∀ parent regex new,
       Dom.parentElement textNode (Replacer.page s) = Some parent →
       Dom.hasAttribute (Dom.nodeId parent) (Replacer.page s) = false →
       RegExp_gi (default [] (Rule.contentPattern rule)) = Some regex →
       (let text :=
          match Dom.lookup textNode (Replacer.page s) with
          | Some n => Dom.textContent n
          | None => []
          end in
        (Rule.action rule = Action.remove
         ∧ new = string_replace text regex []
         ∨ Rule.action rule = Action.replace
           ∧ new = string_replace text regex
                     (default [] (Rule.replacement rule)))
        ∧ new ≠ text) →
       throws m_textContent textNode = false →
       ∃ s',
         Replacer.applyRuleToTextNode textNode rule s = Replacer.Done s'
         ∧ Replacer.page s'
           = Dom.setAttribute (Dom.nodeId parent)
               (Dom.setTextContent textNode new (Replacer.page s))
         ∧ Replacer.appliedCount s' = S (Replacer.appliedCount s)
         ∧ Dom.hasAttribute (Dom.nodeId parent) (Replacer.page s') = true
         ∧ (∀ rule', Replacer.applyRuleToTextNode textNode rule' s'
                     = Replacer.Done s')
         ∧ (∀ hostname,
              Dom.hasAttribute (Dom.nodeId parent)
                (Replacer.page
                   (Replacer.final (Replacer.applyAll hostname s')))
              = true)).
Proof.
  split.
  { intros Hm s'.
    destruct (applyRuleToElement_unmarked element rule s Hm)
      as (Hin & _ & Hcount & _).
    assert (Dom.hasAttribute element (Replacer.page s') = true) as Hset
      by (by apply bool_decide_eq_true).
    split; [done|]. split; [done|]. split; [|split].
    - intros rule'. by apply applyRuleToElement_marked.
    - intros patternLen regex. unfold Replacer.elementQualifies.
      by rewrite Hset.
    - intros hostname. apply bool_decide_eq_true.
      by apply (applyAll_keeps element hostname). }
  assert (∀ parent old new o,
    Replacer.substitute textNode parent old new s = o →
    match o with
    | Replacer.Threw s' => s' = s
    | Replacer.Done s' =>
        s' = s
        ∨ Dom.hasAttribute parent (Replacer.page s') = true
          ∧ Replacer.appliedCount s' = S (Replacer.appliedCount s)
    end) as Hsub.
  { intros parent old new o <-. unfold Replacer.substitute.
    case_bool_decide; [|by left].
    destruct (throws m_textContent textNode); [done|].
    right. split; [|done]. simpl. apply hasAttribute_setAttribute. }
  assert ((∀ s', Replacer.applyRuleToTextNode textNode rule s
                 = Replacer.Threw s' → s' = s)
          ∧ (∀ s', Replacer.applyRuleToTextNode textNode rule s
                   = Replacer.Done s' →
                   s' = s
                   ∨ ∃ parent,
                       Dom.parentElement textNode (Replacer.page s)
                       = Some parent
                       ∧ Dom.hasAttribute (Dom.nodeId parent)
                           (Replacer.page s') = true
                       ∧ Replacer.appliedCount s'
                         = S (Replacer.appliedCount s))) as [Hthrew Hdone].
  { unfold Replacer.applyRuleToTextNode.
    destruct (Dom.parentElement textNode (Replacer.page s)) as [parent|];
      [|split; intros s'; [done | intros [= <-]; by left]].
    destruct (Dom.hasAttribute _ _);
      [split; intros s'; [done | intros [= <-]; by left]|].
    destruct (RegExp_gi _) as [regex|];
      [|split; intros s'; [done | intros [= <-]; by left]].
    destruct (Rule.action rule);
      try (split; intros s'; [done | intros [= <-]; by left]).
    - split; intros s' Hrun; specialize (Hsub _ _ _ _ Hrun); simpl in Hsub;
        [done|]. destruct Hsub as [->|[? ?]]; [by left|]. right.
      by exists parent.
    - split; intros s' Hrun; specialize (Hsub _ _ _ _ Hrun); simpl in Hsub;
        [done|]. destruct Hsub as [->|[? ?]]; [by left|]. right.
      by exists parent. }
  split; [done|]. split; [done|].
  intros parent regex new Hparent Hfree Hregex [Hnew Hne] Hquiet.
  exists (Replacer.incApplied
            (Replacer.setPage (Dom.setAttribute (Dom.nodeId parent))
               (Replacer.setPage (Dom.setTextContent textNode new) s))).
  split.
  { unfold Replacer.applyRuleToTextNode. rewrite Hparent, Hfree, Hregex.
    destruct Hnew as [[-> ->]|[-> ->]]; by apply substitute_changed. }
  assert (Dom.hasAttribute (Dom.nodeId parent)
            (Dom.setAttribute (Dom.nodeId parent)
               (Dom.setTextContent textNode new (Replacer.page s))) = true)
    as Hset by apply hasAttribute_setAttribute.
  split; [done|]. split; [done|]. split; [done|]. split.
  - intros rule'.
    apply (applyRuleToTextNode_marked _ _ _
             (Dom.setData textNode new parent)).
    + cbn. change (Dom.parentElement textNode
                     (Dom.setAttribute (Dom.nodeId parent)
                        (Dom.setTextContent textNode new (Replacer.page s))))
        with (Dom.parentElement textNode
                (Dom.setTextContent textNode new (Replacer.page s))).
      by rewrite parentElement_setTextContent, Hparent.
    + by rewrite nodeId_setData.
  - intros hostname. apply bool_decide_eq_true.
    apply (applyAll_keeps (Dom.nodeId parent) hostname).
    by apply bool_decide_eq_true in Hset.
Qed.

Lemma mark_before_mutation_witness :
  ∃ s',
    Replacer.applyRuleToTextNode (H := RefHost.browser) 5 rule_replace_X_by_Y
      (engine [rule_replace_X_by_Y] page_X) = Replacer.Done s'
    ∧ Dom.lookup 5 (Replacer.page s') = Some (Dom.Text 5 (js "Y"))
    ∧ Dom.hasAttribute 4 (Replacer.page s') = true
    ∧ Replacer.appliedCount s' = 1%nat.
Proof.
  destruct (proj2 (proj2 (proj2
              (mark_before_mutation (H := RefHost.browser) 4 5
                 rule_replace_X_by_Y (engine [rule_replace_X_by_Y] page_X))))
              (elem 4 "P" [Dom.Text 5 (js "X")]) (js "X") (js "Y")
              eq_refl eq_refl eq_refl)
    as (s' & Hrun & Hpage & Hcount & Hmark & _).
  - split; [by right|]. by vm_compute.
  - done.
  - exists s'. split; [done|]. split; [by rewrite Hpage|]. done.
Defined.

(* ================================================================== *)
(** ** Invalid selectors and patterns *)

Section FailureFacts.
Context {H : Host}.
Import Replacer.



Lemma applyRuleToPage_unfold rule s :
  applyRuleToPage rule s
  = match (if JS.truthy (Rule.selector rule)
           then tryCatch (applyRuleBySelector rule) s else Done s) with
    | Done s' =>
        if JS.truthy (Rule.contentPattern rule)
        then applyRuleByContent rule s' else Done s'
    | Threw s' => Threw s'
    end.
Proof.
  unfold applyRuleToPage, andThen, skip.
  by destruct (JS.truthy (Rule.contentPattern rule)),
    (JS.truthy (Rule.selector rule)).
Qed.

End FailureFacts.

Section CompletionFacts.
Context {H : Host}.
Import Replacer.



End CompletionFacts.





(* ================================================================== *)
(** ** The selector synthesizer *)

(** C7: [generateSelector] reads nothing but the tree.  Calls on the same
    node in two states of the page with the same document tree (and the
    same cut subtrees) return the same string, whatever happened in between
    to markers, hidden elements and counters. *)
Theorem selector_determinism {H : Host} (p1 p2 : Dom.page) (element : N) :
  Dom.documentElement p1 = Dom.documentElement p2 →
  Dom.detached p1 = Dom.detached p2 →
  Reporter.generateSelector p1 element = Reporter.generateSelector p2 element.
Proof.
  intros Hdoc Hdet.
  assert (Dom.forest p1 = Dom.forest p2) as Hforest.
  { unfold Dom.forest. by rewrite Hdoc, Hdet. }
  unfold Reporter.generateSelector, Reporter.ancestry, Dom.lookup,
    Replacer.body.
  by rewrite Hforest, Hdoc.
Qed.

Lemma selector_determinism_witness :
  Reporter.generateSelector (H := RefHost.browser) page_X 4
  = Reporter.generateSelector (H := RefHost.browser)
      (Dom.setDisplayNone 4 (Dom.setAttribute 4 page_X)) 4.
Proof.
  apply (selector_determinism (H := RefHost.browser)); reflexivity.
Defined.

(* ================================================================== *)
(** ** Running the engine twice *)

Section SecondRunFacts.
Context {H : Host}.
Import Replacer.

Lemma extends_refl s : extends s s.
Proof. by repeat split. Qed.

Lemma extends_trans s1 s2 s3 : extends s1 s2 → extends s2 s3 → extends s1 s3.
Proof.
  intros (? & ? & ? & ? & ?) (? & ? & ? & ? & ?).
  repeat split; try congruence. set_solver.
Qed.

Lemma lookup_extends s s' el :
  extends s s' → Dom.lookup el (page s') = Dom.lookup el (page s).
Proof.
  intros (_ & _ & Hdoc & Hdet & _). unfold Dom.lookup, Dom.forest.
  by rewrite Hdoc, Hdet.
Qed.

Lemma body_extends s s' : extends s s' → body (page s') = body (page s).
Proof. intros (_ & _ & Hdoc & _). unfold body. by rewrite Hdoc. Qed.

(** An element that does not qualify never will, as long as the tree
    stays and markers are only added. *)
Lemma elementQualifies_stable patternLen regex s s' el :
  extends s s' →
  elementQualifies patternLen regex (page s) el = false →
  elementQualifies patternLen regex (page s') el = false.
Proof.
  intros Hext. pose proof (lookup_extends s s' el Hext) as Hl.
  destruct Hext as (_ & _ & _ & _ & Hsub).
  unfold elementQualifies, Dom.hasAttribute. rewrite Hl.
  destruct (bool_decide (el ∈ Dom.processed (page s))) eqn:Hm.
  - apply bool_decide_eq_true in Hm.
    rewrite (bool_decide_eq_true_2 (el ∈ Dom.processed (page s')));
      [done | set_solver].
  - intros Hq. by destruct (bool_decide (el ∈ Dom.processed (page s'))).
Qed.

Lemma settled_stable rule s s' :
  extends s s' → settled rule (page s) → settled rule (page s').
Proof.
  intros Hext Hs Htruthy regex Hregex.
  destruct (Hs Htruthy regex Hregex) as (b & Hb & Hall).
  exists b. split; [by rewrite (body_extends s s')|].
  intros el Hel. eapply elementQualifies_stable; eauto.
Qed.

(** One step of the element scan for a [hide] rule. *)
Lemma hide_step rule patternLen regex el s :
  (∀ e, throws m_display e = false) →
  Rule.action rule = Action.hide →
  ∃ s',
    (if elementQualifies patternLen regex (page s) el
     then applyRuleToElement el rule s else Done s) = Done s'
    ∧ extends s s'
    ∧ elementQualifies patternLen regex (page s') el = false.
Proof.
  intros Hno Hact.
  destruct (elementQualifies patternLen regex (page s) el) eqn:Hq.
  - assert (Dom.hasAttribute el (page s) = false) as Hm.
    { unfold elementQualifies in Hq.
      by destruct (Dom.hasAttribute el (page s)). }
    unfold applyRuleToElement. rewrite Hm, Hact, Hno.
    eexists. split; [done|]. split.
    + repeat split; simpl; try done. set_solver.
    + unfold elementQualifies. simpl.
      change (Dom.hasAttribute el
                (Dom.setDisplayNone el (Dom.setAttribute el (page s))))
        with (Dom.hasAttribute el (Dom.setAttribute el (page s))).
      by rewrite hasAttribute_setAttribute.
  - exists s. split; [done|]. split; [apply extends_refl | done].
Qed.

Lemma hide_scan rule patternLen regex (l : list N) s :
  (∀ e, throws m_display e = false) →
  Rule.action rule = Action.hide →
  ∃ s',
    forOf l
      (λ el s',
         if elementQualifies patternLen regex (page s') el
         then applyRuleToElement el rule s' else Done s') s = Done s'
    ∧ extends s s'
    ∧ ∀ el, el ∈ l →
            elementQualifies patternLen regex (page s') el = false.
Proof.
  intros Hno Hact. revert s. induction l as [|el l IH]; intros s.
  - exists s. split; [done|]. split; [apply extends_refl|].
    intros el Hel. by apply elem_of_nil in Hel.
  - destruct (hide_step rule patternLen regex el s Hno Hact)
      as (sa & Hstep & Hexta & Hqa).
    destruct (IH sa) as (s' & Hrest & Hext & Hall).
    exists s'. split.
    { simpl. unfold andThen. by rewrite Hstep. }
    split; [by eapply extends_trans|].
    intros e He. apply elem_of_cons in He as [->|He]; [|by apply Hall].
    by eapply elementQualifies_stable.
Qed.

(** A scan over elements none of which qualifies changes nothing. *)
Lemma idle_scan rule patternLen regex (l : list N) s :
  (∀ el, el ∈ l → elementQualifies patternLen regex (page s) el = false) →
  forOf l
    (λ el s',
       if elementQualifies patternLen regex (page s') el
       then applyRuleToElement el rule s' else Done s') s = Done s.
Proof.
  induction l as [|el l IH]; intros Hall; [done|].
  simpl. unfold andThen. rewrite Hall by apply list_elem_of_here.
  apply IH. intros e He. apply Hall. by apply list_elem_of_further.
Qed.

Lemma hide_rule_run rule s s1 :
  (∀ e, throws m_display e = false) →
  hideByContent rule →
  applyRuleToPage rule s = Done s1 →
  extends s s1 ∧ settled rule (page s1).
Proof.
  intros Hno [Hact Hsel]. rewrite applyRuleToPage_unfold, Hsel.
  destruct (JS.truthy (Rule.contentPattern rule)) eqn:Hpat.
  - unfold applyRuleByContent.
    destruct (RegExp_gi _) as [regex|] eqn:Hre.
    + rewrite Hact. unfold applyRuleToMatchingElements.
      destruct (body (page s)) as [b|] eqn:Hb; [|done].
      destruct (hide_scan rule
                  (length (default [] (Rule.contentPattern rule)))
                  regex (allElements b) s Hno Hact)
        as (s' & Hrun & Hext & Hall).
      rewrite Hrun. intros [= <-]. split; [done|].
      intros _ regex' Hre'. assert (regex' = regex) as -> by congruence.
      exists b. split; [by rewrite (body_extends s s')|done].
    + intros [= <-]. split; [apply extends_refl|].
      intros _ regex' Hre'. congruence.
  - intros [= <-]. split; [apply extends_refl|]. intros ?. congruence.
Qed.

Lemma settled_rule_run rule s :
  hideByContent rule → settled rule (page s) →
  applyRuleToPage rule s = Done s.
Proof.
  intros [Hact Hsel] Hs. rewrite applyRuleToPage_unfold, Hsel.
  destruct (JS.truthy (Rule.contentPattern rule)) eqn:Hpat; [|done].
  unfold applyRuleByContent.
  destruct (RegExp_gi _) as [regex|] eqn:Hre; [|done].
  rewrite Hact. unfold applyRuleToMatchingElements.
  destruct (Hs Hpat regex Hre) as (b & -> & Hall).
  by apply idle_scan.
Qed.

Lemma hide_rules_run (l : list Rule.t) s s1 :
  (∀ e, throws m_display e = false) →
  Forall hideByContent l →
  forOf l applyRuleToPage s = Done s1 →
  extends s s1 ∧ Forall (λ rule, settled rule (page s1)) l.
Proof.
  intros Hno Hl. revert s. induction Hl as [|rule l Hrule Hl IH]; intros s.
  - intros [= <-]. split; [apply extends_refl | constructor].
  - simpl. unfold andThen.
    destruct (applyRuleToPage rule s) as [sa|sa] eqn:Hfirst; [|done].
    intros Hrest.
    destruct (hide_rule_run rule s sa Hno Hrule Hfirst) as [Hexta Hset].
    destruct (IH sa Hrest) as [Hext Hall].
    split; [by eapply extends_trans|].
    constructor; [by eapply settled_stable | done].
Qed.

Lemma settled_rules_run (l : list Rule.t) s :
  Forall hideByContent l →
  Forall (λ rule, settled rule (page s)) l →
  forOf l applyRuleToPage s = Done s.
Proof.
  intros Hl. induction Hl as [|rule l Hrule Hl IH]; intros Hs; [done|].
  apply Forall_cons in Hs as [Hs Hrest].
  simpl. unfold andThen. rewrite settled_rule_run by done. by apply IH.
Qed.
End SecondRunFacts.

(** C3, amended: an element that carries the marker is skipped by every
    rule and every scan and keeps the marker through a run.  For [hide]
    rules matched by content, whose mutations leave text and structure
    alone, a second [applyAll] right after a first one that returned
    changes nothing on the page and ends with an applied-count of 0 (each
    enabled run starts by resetting the counter).  Nothing is promised for
    [remove] and [replace] rules, whose mutations can make further
    unmarked elements qualify. *)
Theorem second_run {H : Host} (hostname : jsstring) (s : Replacer.state) :
  (∀ element,
     Dom.hasAttribute element (Replacer.page s) = true →
     (∀ rule, Replacer.applyRuleToElement element rule s = Replacer.Done s)
     ∧ (∀ patternLen regex,
          Replacer.elementQualifies patternLen regex (Replacer.page s)
            element = false)
     ∧ Dom.hasAttribute element
         (Replacer.page (Replacer.final (Replacer.applyAll hostname s)))
       = true)
  ∧ ((∀ e, throws m_display e = false) →
     Forall hideByContent (Replacer.rules s) →
     ∀ s1,
       Replacer.applyAll hostname s = Replacer.Done s1 →
       Replacer.applyAll hostname s1
       = Replacer.Done
           (if Replacer.enabled s
            then Replacer.mkState (Replacer.rules s1) (Replacer.enabled s1)
                   0 (Replacer.page s1)
            else s1)).
Proof.
  split.
  - intros element Hm. split; [|split].
    + intros rule. by apply applyRuleToElement_marked.
    + intros patternLen regex. unfold Replacer.elementQualifies.
      by rewrite Hm.
    + apply bool_decide_eq_true. apply (applyAll_keeps element hostname).
      by apply bool_decide_eq_true in Hm.
  - intros Hno Hrules s1. rewrite !applyAll_unfold.
    destruct (Replacer.enabled s) eqn:Hen; simpl.
    2:{ intros [= <-]. by rewrite Hen. }
    intros Hrun.
    assert (Forall hideByContent
              (List.filter (Replacer.appliesTo hostname) (Replacer.rules s)))
      as Hl.
    { apply Forall_forall. intros r Hr.
      apply list_elem_of_In, filter_In in Hr as [Hr _].
      rewrite Forall_forall in Hrules. by apply Hrules, list_elem_of_In. }
    destruct (hide_rules_run _ _ _ Hno Hl Hrun)
      as [(Hr & He & Hdoc & Hdet & Hsub) Hset].
    simpl in Hr, He. rewrite He, Hr. simpl.
    by apply settled_rules_run.
Qed.

Lemma no_display_fault :
  ∀ e, throws (Host := RefHost.browser) m_display e = false.
Proof. done. Qed.

Lemma second_run_witness :
  Replacer.appliedCount
    (Replacer.final
       (Replacer.applyAll (H := RefHost.browser) (js "example.com")
          (engine [rule_hide_X] page_nested))) = 2%nat
  ∧ Replacer.applyAll (H := RefHost.browser) (js "example.com")
      (Replacer.final
         (Replacer.applyAll (H := RefHost.browser) (js "example.com")
            (engine [rule_hide_X] page_nested)))
    = Replacer.Done
        (Replacer.mkState [rule_hide_X] true 0
           (Replacer.page
              (Replacer.final
                 (Replacer.applyAll (H := RefHost.browser)
                    (js "example.com")
                    (engine [rule_hide_X] page_nested))))).
Proof.
  split; [by vm_compute|].
  apply (proj2 (second_run (H := RefHost.browser) (js "example.com")
                  (engine [rule_hide_X] page_nested))).
  - apply no_display_fault.
  - by repeat constructor.
  - by vm_compute.
Defined.

(** C3 as worded fails: with the rule that removes [X], the first run on
    the nested page removes the two inner elements (count 2); that leaves
    the outer [div] with the text [X], and the second run removes it
    (count 1). *)
Lemma second_run_counterexample :
  Replacer.appliedCount
    (Replacer.final
       (Replacer.applyAll (H := RefHost.browser) (js "example.com")
          (engine [rule_remove_X] page_nested))) = 2%nat
  ∧ Replacer.appliedCount
      (Replacer.final
         (Replacer.applyAll (H := RefHost.browser) (js "example.com")
            (Replacer.final
               (Replacer.applyAll (H := RefHost.browser) (js "example.com")
                  (engine [rule_remove_X] page_nested))))) = 1%nat
  ∧ ¬ idempotence_as_worded.
Proof.
  split; [by vm_compute|]. split; [by vm_compute|].
  intros Hclaim.
  destruct (Hclaim RefHost.browser (js "example.com")
              (engine [rule_remove_X] page_nested)
              (Replacer.final
                 (Replacer.applyAll (H := RefHost.browser)
                    (js "example.com")
                    (engine [rule_remove_X] page_nested)))
              (Replacer.final
                 (Replacer.applyAll (H := RefHost.browser)
                    (js "example.com")
                    (Replacer.final
                       (Replacer.applyAll (H := RefHost.browser)
                          (js "example.com")
                          (engine [rule_remove_X] page_nested))))))
    as [Hcount _]; [done | by vm_compute | by vm_compute |].
  by vm_compute in Hcount.
Qed.


(* ================================================================== *)
(** ** The store: toggling and deleting rules *)

Section FilterFacts.
Context {A : Type}.

Lemma filter_filter_and (f g : A → bool) (l : list A) :
  List.filter g (List.filter f l) = List.filter (λ x, f x && g x) l.
Proof.
  induction l as [|x l IH]; simpl; [done|].
  destruct (f x); simpl; [|done]. destruct (g x); by rewrite IH.
Qed.

Lemma filter_comm (f g : A → bool) (l : list A) :
  List.filter g (List.filter f l) = List.filter f (List.filter g l).
Proof.
  rewrite !filter_filter_and. apply List.filter_ext. intros x.
  apply andb_comm.
Qed.

Lemma filter_all (f : A → bool) (l : list A) :
  (∀ x, x ∈ l → f x = true) → List.filter f l = l.
Proof.
  induction l as [|x l IH]; intros Hall; simpl; [done|].
  rewrite Hall by apply list_elem_of_here. f_equal. apply IH.
  intros y Hy. apply Hall. by apply list_elem_of_further.
Qed.

Lemma filter_length_mono (f g : A → bool) (l : list A) :
  (∀ x, x ∈ l → f x = true → g x = true) →
  (length (List.filter f l) ≤ length (List.filter g l))%nat.
Proof.
  induction l as [|x l IH]; intros Himp; simpl; [done|].
  assert (length (List.filter f l) ≤ length (List.filter g l))%nat as Hl.
  { apply IH. intros y Hy. apply Himp. by apply list_elem_of_further. }
  destruct (f x) eqn:Hf.
  - rewrite (Himp x) by (done || apply list_elem_of_here). simpl. lia.
  - destruct (g x); simpl; lia.
Qed.
End FilterFacts.

Section StoreFacts.
Import Manager.

Lemma findRule_None rid (l : list Rule.t) :
  findRule rid l = None ↔ ∀ r, r ∈ l → Rule.id r ≠ rid.
Proof.
  unfold findRule. rewrite fmap_None, list_find_None, Forall_forall. done.
Qed.

Lemma findRule_Some rid (l : list Rule.t) i :
  findRule rid l = Some i →
  ∃ r, l !! i = Some r ∧ Rule.id r = rid
       ∧ ∀ j x, l !! j = Some x → (j < i)%nat → Rule.id x ≠ rid.
Proof.
  unfold findRule. intros Hf. apply fmap_Some in Hf as ([j r] & Hf & ->).
  apply list_find_Some in Hf as (Hl & Hid & Hbefore). simpl. eauto.
Qed.

(** The overlay and the tags decide; the rule lists do not. *)
Lemma isRuleEnabled_ext st st' r :
  orEmpty (Stored.disabledRuleIds st') = orEmpty (Stored.disabledRuleIds st) →
  orEmpty (Stored.tags st') = orEmpty (Stored.tags st) →
  Background.isRuleEnabled st' r = Background.isRuleEnabled st r.
Proof.
  intros HD HT. apply eq_true_iff_eq.
  by rewrite !isRuleEnabled_spec, HD, HT.
Qed.

(** With one more id in the overlay, a rule passes exactly when it passed
    before and has another id. *)
Lemma isRuleEnabled_overlay st st' rid r :
  (∀ i, i ∈ orEmpty (Stored.disabledRuleIds st')
        ↔ i ∈ orEmpty (Stored.disabledRuleIds st) ∨ i = rid) →
  orEmpty (Stored.tags st') = orEmpty (Stored.tags st) →
  Background.isRuleEnabled st' r
  = Background.isRuleEnabled st r && negb (bool_decide (Rule.id r = rid)).
Proof.
  intros HD HT. apply eq_true_iff_eq.
  rewrite andb_true_iff, negb_true_iff, bool_decide_eq_false,
    !isRuleEnabled_spec, HT.
  unfold Spec.effective. rewrite HD. tauto.
Qed.

Lemma merged_unfold st :
  Background.getMergedRules st
  = List.filter (Background.isRuleEnabled st) (orEmpty (Stored.userRules st))
    ++ List.filter (Background.isRuleEnabled st)
         (orEmpty (Stored.communityRules st)).
Proof. done. Qed.

(** Changing the one element with a given id to something the filter
    rejects removes all elements with that id from the filtered list. *)
Lemma filter_alter_unique (f : Rule.t → bool) (g : Rule.t → Rule.t) rid i r
    (l : list Rule.t) :
  NoDup (List.map Rule.id l) →
  l !! i = Some r → Rule.id r = rid → f (g r) = false →
  List.filter f (alter g i l)
  = List.filter (λ x, negb (bool_decide (Rule.id x = rid))) (List.filter f l).
Proof.
  revert i. induction l as [|x l IH]; intros i Hnd Hi Hid Hf; [done|].
  simpl in Hnd. apply NoDup_cons in Hnd as [Hx Hnd].
  destruct i as [|i]; simpl in *.
  - injection Hi as ->. rewrite Hf.
    assert (List.filter f l
            = List.filter (λ x, negb (bool_decide (Rule.id x = rid)))
                (List.filter f l)) as Hrest.
    { symmetry. apply filter_all. intros y Hy.
      apply list_elem_of_In, filter_In in Hy as [Hy _].
      apply negb_true_iff, bool_decide_eq_false. intros Heq.
      apply Hx. rewrite Hid, <- Heq. apply list_elem_of_In, in_map.
      done. }
    destruct (f r); simpl; [|done].
    by rewrite (bool_decide_eq_true_2 _ Hid).
  - assert (Rule.id x ≠ rid) as Hne.
    { intros Heq. apply Hx. rewrite Heq, <- Hid.
      apply list_elem_of_In, in_map, list_elem_of_In.
      by eapply list_elem_of_lookup_2. }
    change (list_alter g i l) with (alter g i l).
    rewrite (IH i) by done.
    destruct (f x); simpl; [|done].
    by rewrite (bool_decide_eq_false_2 _ Hne).
Qed.
End StoreFacts.

(** X1: disabling a rule through [toggleRule].  When no local rule has
    the id, the id joins the overlay and the merged list loses exactly the
    rules with that id.  When a local rule has it (local ids distinct), that
    rule leaves the merged list and the community rules stay as they were,
    one with the same id included. *)
Theorem toggleRule_disable (ruleId : jsstring) (st : Stored.t) :
  let st' := (Manager.toggleRule ruleId false st).2 in
  (Manager.findRule ruleId (orEmpty (Stored.userRules st)) = None →
   Background.getMergedRules st'
   = List.filter (λ r, negb (bool_decide (Rule.id r = ruleId)))
       (Background.getMergedRules st))
  ∧ (NoDup (List.map Rule.id (orEmpty (Stored.userRules st))) →
     is_Some (Manager.findRule ruleId (orEmpty (Stored.userRules st))) →
     Background.getMergedRules st'
     = List.filter (λ r, negb (bool_decide (Rule.id r = ruleId)))
         (List.filter (Background.isRuleEnabled st)
            (orEmpty (Stored.userRules st)))
       ++ List.filter (Background.isRuleEnabled st)
            (orEmpty (Stored.communityRules st))).
Proof.
  intros st'. subst st'. unfold Manager.toggleRule. split.
  - intros Hnone. rewrite Hnone. simpl negb. cbv iota.
    set (D := orEmpty (Stored.disabledRuleIds st)).
    set (D' := if bool_decide (ruleId ∈ D) then D else D ++ [ruleId]).
    simpl snd. rewrite !merged_unfold. simpl.
    rewrite List.filter_app, !filter_filter_and. f_equal;
      apply List.filter_ext; intros r;
      apply (isRuleEnabled_overlay st (Manager.setDisabledRuleIds D' st));
      try done; intros i; simpl; fold D; unfold D';
      case_bool_decide; rewrite ?elem_of_app, ?list_elem_of_singleton;
      intuition congruence.
  - intros Hnd [i Hi]. rewrite Hi. simpl snd.
    destruct (findRule_Some _ _ _ Hi) as (r & Hr & Hid & _).
    rewrite !merged_unfold. simpl.
    rewrite !(List.filter_ext
                (Background.isRuleEnabled (Manager.setUserRules _ st))
                (Background.isRuleEnabled st))
      by (intros x; by apply isRuleEnabled_ext).
    f_equal. apply (filter_alter_unique _ _ ruleId i r); try done.
    apply not_true_iff_false. rewrite isRuleEnabled_spec.
    by intros (_ & Hen & _).
Qed.

Lemma toggleRule_disable_witness :
  List.map Rule.id
    (Background.getMergedRules
       (Manager.toggleRule (js "C1") false scenario_store).2) = [js "L2"]
  ∧ List.map Rule.id
      (Background.getMergedRules
         (Manager.toggleRule (js "L2") false scenario_store).2) = [js "C1"].
Proof.
  split.
  - rewrite (proj1 (toggleRule_disable (js "C1") scenario_store));
      by vm_compute.
  - rewrite (proj2 (toggleRule_disable (js "L2") scenario_store)).
    + by vm_compute.
    + apply (bool_decide_unpack _). by vm_compute.
    + vm_compute. by eexists.
Defined.

(** X2: enabling a rule through [toggleRule] when no local rule has the
    id removes every occurrence of the id from the overlay and changes
    nothing else; disabling and then enabling an id that was not in the
    overlay gives back the merged list there was. *)
Theorem toggleRule_enable_community (ruleId : jsstring) (st : Stored.t) :
  Manager.findRule ruleId (orEmpty (Stored.userRules st)) = None →
  (Manager.toggleRule ruleId true st).2
  = Manager.setDisabledRuleIds
      (List.filter (λ id, negb (bool_decide (id = ruleId)))
         (orEmpty (Stored.disabledRuleIds st))) st
  ∧ (ruleId ∉ orEmpty (Stored.disabledRuleIds st) →
     (Manager.toggleRule ruleId true
        (Manager.toggleRule ruleId false st).2).2
     = Manager.setDisabledRuleIds (orEmpty (Stored.disabledRuleIds st)) st
     ∧ Background.getMergedRules
         (Manager.toggleRule ruleId true
            (Manager.toggleRule ruleId false st).2).2
       = Background.getMergedRules st).
Proof.
  intros Hnone. unfold Manager.toggleRule. rewrite Hnone. simpl.
  split; [done|]. intros Hnot.
  rewrite Hnone, (bool_decide_eq_false_2 _ Hnot). simpl.
  assert (List.filter (λ id, negb (bool_decide (id = ruleId)))
            (orEmpty (Stored.disabledRuleIds st) ++ [ruleId])
          = orEmpty (Stored.disabledRuleIds st)) as ->.
  { rewrite List.filter_app. simpl.
    rewrite (bool_decide_eq_true_2 _ eq_refl). simpl.
    rewrite app_nil_r. apply filter_all. intros i Hi.
    apply negb_true_iff, bool_decide_eq_false. by intros ->. }
  split; [done|].
  rewrite !merged_unfold. simpl.
  f_equal; apply List.filter_ext; intros r; by apply isRuleEnabled_ext.
Qed.

Lemma toggleRule_enable_community_witness :
  Background.getMergedRules
    (Manager.toggleRule (js "C1") true
       (Manager.toggleRule (js "C1") false scenario_store).2).2
  = Background.getMergedRules scenario_store.
Proof.
  apply (proj2 (toggleRule_enable_community (js "C1") scenario_store
                  eq_refl)).
  apply (bool_decide_unpack _). by vm_compute.
Defined.

(** X3: while a local rule has an id that is also in the overlay,
    [toggleRule] changes only that local rule's flag: the overlay keeps the
    id, so after the call, with either flag, no rule with that id is in the
    merged list. *)
Theorem toggleRule_overlay_collision (ruleId : jsstring) (enabled : bool)
    (st : Stored.t) :
  is_Some (Manager.findRule ruleId (orEmpty (Stored.userRules st))) →
  ruleId ∈ orEmpty (Stored.disabledRuleIds st) →
  let st' := (Manager.toggleRule ruleId enabled st).2 in
  Stored.disabledRuleIds st' = Stored.disabledRuleIds st
  ∧ ∀ r, r ∈ Background.getMergedRules st' → Rule.id r ≠ ruleId.
Proof.
  intros [i Hi] Hin st'. subst st'. unfold Manager.toggleRule. rewrite Hi.
  simpl. split; [done|]. intros r Hr.
  apply getMergedRules_elem in Hr as [_ (Hid & _)]. simpl in Hid.
  by intros <-.
Qed.

Lemma toggleRule_overlay_collision_witness :
  Background.getMergedRules
    (Manager.toggleRule (js "C1") true colliding_store).2 = [].
Proof.
  destruct (toggleRule_overlay_collision (js "C1") true colliding_store)
    as [_ Hnone].
  - vm_compute. by eexists.
  - apply (bool_decide_unpack _). by vm_compute.
  - destruct (Background.getMergedRules _) as [|r l] eqn:Hl; [done|].
    destruct (Hnone r); [apply list_elem_of_here|].
    by vm_compute in Hl.
Defined.

(** X4: [deleteUserRule] takes the local rules with the id out of the
    merged list, keeps the others in their order, and leaves every
    community rule in place, one with the same id included. *)
Theorem deleteUserRule_merged (ruleId : jsstring) (st : Stored.t) :
  Background.getMergedRules (Manager.deleteUserRule ruleId st).2
  = List.filter (λ r, negb (bool_decide (Rule.id r = ruleId)))
      (List.filter (Background.isRuleEnabled st)
         (orEmpty (Stored.userRules st)))
    ++ List.filter (Background.isRuleEnabled st)
         (orEmpty (Stored.communityRules st)).
Proof.
  unfold Manager.deleteUserRule. rewrite !merged_unfold. simpl.
  rewrite !(List.filter_ext
              (Background.isRuleEnabled (Manager.setUserRules _ st))
              (Background.isRuleEnabled st))
    by (intros x; by apply isRuleEnabled_ext).
  f_equal. apply filter_comm.
Qed.

(* ================================================================== *)
(** ** The store: tags *)

Section TagFacts.
Import Manager.

Lemma stripTag_id tagId r : Rule.id (stripTag tagId r) = Rule.id r.
Proof.
  unfold stripTag. destruct (Rule.tags r); [|done]. by case_bool_decide.
Qed.

Lemma stripTag_enabled tagId r :
  Rule.enabled (stripTag tagId r) = Rule.enabled r.
Proof.
  unfold stripTag. destruct (Rule.tags r); [|done]. by case_bool_decide.
Qed.

Lemma stripTag_tags tagId r tid :
  tid ∈ orEmpty (Rule.tags (stripTag tagId r))
  ↔ tid ∈ orEmpty (Rule.tags r) ∧ tid ≠ tagId.
Proof.
  unfold stripTag. destruct (Rule.tags r) as [tags|] eqn:Ht; simpl.
  - case_bool_decide as Hin; simpl.
    + rewrite list_elem_of_In, filter_In, <- list_elem_of_In,
        negb_true_iff, bool_decide_eq_false. done.
    + rewrite Ht. simpl. split; [|tauto]. intros Htid. split; [done|].
      by intros ->.
  - rewrite Ht. simpl. split; [|tauto]. intros Htid.
    by apply elem_of_nil in Htid.
Qed.

Lemma findTag_Some tagId (l : list Tag.t) i :
  findTag tagId l = Some i → ∃ t, l !! i = Some t ∧ Tag.id t = tagId.
Proof.
  unfold findTag. intros Hf. apply fmap_Some in Hf as ([j t] & Hf & ->).
  apply list_find_Some in Hf as (Hl & Hid & _). simpl. eauto.
Qed.

Lemma elem_of_alter_inv {A} (f : A → A) i (l : list A) y :
  y ∈ alter f i l → y ∈ l ∨ ∃ x, l !! i = Some x ∧ y = f x.
Proof.
  intros Hy. apply list_elem_of_lookup in Hy as [j Hj].
  destruct (decide (i = j)) as [->|Hne].
  - rewrite list_lookup_alter_eq in Hj.
    destruct (l !! j) as [x|] eqn:Hx; [|done]. injection Hj as <-.
    right. eauto.
  - rewrite list_lookup_alter_ne in Hj by done.
    left. by eapply list_elem_of_lookup_2.
Qed.
End TagFacts.

(** X5: after [deleteTag] no tag has the id and no local rule mentions
    it; the community rules are as they were.  A local rule that was kept
    out only by that tag is now in the merged list: it is there whenever
    its id is not in the overlay, its flag is not false and its other tags
    are not disabled. *)
Theorem deleteTag_lifts (tagId : jsstring) (st : Stored.t) :
  let st' := (Manager.deleteTag tagId st).2 in
  (∀ t, t ∈ orEmpty (Stored.tags st') → Tag.id t ≠ tagId)
  ∧ (∀ r, r ∈ orEmpty (Stored.userRules st') →
          tagId ∉ orEmpty (Rule.tags r))
  ∧ Stored.communityRules st' = Stored.communityRules st
  ∧ (∀ r, r ∈ orEmpty (Stored.userRules st) →
          Rule.id r ∉ orEmpty (Stored.disabledRuleIds st) →
          Rule.enabled r ≠ Some false →
          (∀ tid, tid ∈ orEmpty (Rule.tags r) → tid ≠ tagId →
                  ¬ Spec.tagDisabled (orEmpty (Stored.tags st)) tid) →
          Manager.stripTag tagId r ∈ Background.getMergedRules st')
  ∧ (∀ r, r ∈ orEmpty (Stored.communityRules st) →
          r ∈ Background.getMergedRules st →
          r ∈ Background.getMergedRules st').
Proof.
  intros st'. subst st'. unfold Manager.deleteTag. simpl.
  assert (∀ tid,
    Spec.tagDisabled
      (List.filter (λ t, negb (bool_decide (Tag.id t = tagId)))
         (orEmpty (Stored.tags st))) tid
    → Spec.tagDisabled (orEmpty (Stored.tags st)) tid ∧ tid ≠ tagId)
    as Hsub.
  { intros tid (t & Hin & Hid & Hen).
    apply list_elem_of_In, filter_In in Hin as [Hin Hne].
    apply negb_true_iff, bool_decide_eq_false in Hne.
    split; [|congruence]. exists t. by rewrite list_elem_of_In. }
  split; [|split; [|split; [done|split]]].
  - intros t Ht. apply list_elem_of_In, filter_In in Ht as [_ Hne].
    by apply negb_true_iff, bool_decide_eq_false in Hne.
  - intros r Hr. apply list_elem_of_In, in_map_iff in Hr as (r0 & <- & _).
    rewrite stripTag_tags. tauto.
  - intros r Hr HD Hen Htags. apply getMergedRules_elem. split.
    + left. simpl. apply list_elem_of_In, in_map. by apply list_elem_of_In.
    + simpl. split; [by rewrite stripTag_id|].
      split; [by rewrite stripTag_enabled|].
      intros tid Htid Hdis. apply stripTag_tags in Htid as [Htid Hne].
      apply Hsub in Hdis as [Hdis _]. by apply (Htags tid).
  - intros r Hr Hm. apply getMergedRules_elem in Hm as [_ (HD & Hen & Ht)].
    apply getMergedRules_elem. split; [by right|].
    simpl. split; [done|]. split; [done|].
    intros tid Htid Hdis. apply Hsub in Hdis as [Hdis _]. by apply (Ht tid).
Qed.

Lemma deleteTag_lifts_witness :
  Manager.stripTag (js "t1") rule_L1
  ∈ Background.getMergedRules (Manager.deleteTag (js "t1") scenario_store).2.
Proof.
  apply (proj1 (proj2 (proj2 (proj2
           (deleteTag_lifts (js "t1") scenario_store))))).
  - apply list_elem_of_here.
  - apply (bool_decide_unpack _). by vm_compute.
  - done.
  - intros tid Htid Hne. apply list_elem_of_singleton in Htid. done.
Defined.

(** X6: [toggleTag] answers [Tag not found] and writes nothing when no
    tag has the id.  Disabling a tag that exists puts every rule that
    carries its id out of the merged list, local or community; enabling a
    tag never takes a rule out of the merged list. *)
Theorem toggleTag_effect (tagId : jsstring) (st : Stored.t) :
  (Manager.findTag tagId (orEmpty (Stored.tags st)) = None →
   ∀ enabled,
     Manager.toggleTag tagId enabled st
     = (Manager.failure (js "Tag not found"), st))
  ∧ (is_Some (Manager.findTag tagId (orEmpty (Stored.tags st))) →
     (∀ r, r ∈ Background.getMergedRules
                 (Manager.toggleTag tagId false st).2 →
           tagId ∉ orEmpty (Rule.tags r))
     ∧ (∀ r, r ∈ Background.getMergedRules st →
             r ∈ Background.getMergedRules
                   (Manager.toggleTag tagId true st).2)).
Proof.
  unfold Manager.toggleTag. split.
  { intros Hnone enabled. by rewrite Hnone. }
  intros [i Hi]. rewrite Hi. simpl.
  destruct (findTag_Some _ _ _ Hi) as (t & Ht & Hid). split.
  - intros r Hr Hin.
    apply getMergedRules_elem in Hr as [_ (_ & _ & Htags)].
    apply (Htags tagId Hin). simpl.
    exists (Manager.tagWithEnabled false t). split; [|done].
    apply list_elem_of_lookup. exists i.
    by rewrite list_lookup_alter_eq, Ht.
  - intros r Hr. apply getMergedRules_elem in Hr as [Hin (HD & Hen & Htags)].
    apply getMergedRules_elem. split; [done|]. simpl.
    split; [done|]. split; [done|].
    intros tid Htid (t' & Hin' & Hid' & Hen').
    apply elem_of_alter_inv in Hin' as [Hin'|(x & _ & ->)]; [|done].
    apply (Htags tid Htid). by exists t'.
Qed.

Lemma toggleTag_effect_witness :
  rule_L1
  ∉ Background.getMergedRules
      (Manager.toggleTag (js "t1") false scenario_store).2.
Proof.
  intros Hin.
  assert (is_Some (Manager.findTag (js "t1")
                     (orEmpty (Stored.tags scenario_store)))) as Hsome.
  { vm_compute. by eexists. }
  apply (proj1 (proj2 (toggleTag_effect (js "t1") scenario_store) Hsome)
           rule_L1 Hin).
  apply list_elem_of_here.
Defined.

Section RuleTagFacts.
Import Manager.

Lemma findRule_alter rid (f : Rule.t → Rule.t) k (l : list Rule.t) :
  (∀ x, Rule.id (f x) = Rule.id x) →
  findRule rid (alter f k l) = findRule rid l.
Proof.
  intros Hf. destruct (findRule rid l) as [i|] eqn:Hfind.
  - unfold findRule in *. apply fmap_Some in Hfind as ([j x] & Hfind & ->).
    apply list_find_Some in Hfind as (Hl & Hid & Hbefore). simpl.
    apply fmap_Some. destruct (decide (k = j)) as [->|Hne].
    + exists (j, f x). split; [|done]. apply list_find_Some.
      split; [by rewrite list_lookup_alter_eq, Hl|].
      split; [by rewrite Hf|]. intros j' y Hy Hlt.
      rewrite list_lookup_alter_ne in Hy by lia. by eapply Hbefore.
    + exists (j, x). split; [|done]. apply list_find_Some.
      split; [by rewrite list_lookup_alter_ne|]. split; [done|].
      intros j' y Hy Hlt. destruct (decide (k = j')) as [->|Hne'].
      * rewrite list_lookup_alter_eq in Hy.
        destruct (l !! j') as [z|] eqn:Hz; [|done]. injection Hy as <-.
        rewrite Hf. by eapply Hbefore.
      * rewrite list_lookup_alter_ne in Hy by done. by eapply Hbefore.
  - apply findRule_None. intros r Hr.
    rewrite findRule_None in Hfind.
    apply elem_of_alter_inv in Hr as [Hr|(x & Hx & ->)]; [by apply Hfind|].
    rewrite Hf. apply Hfind. by eapply list_elem_of_lookup_2.
Qed.

Lemma withTags_same r tags : Rule.tags r = Some tags → withTags tags r = r.
Proof. destruct r. simpl. by intros ->. Qed.

Lemma filter_snoc_fresh (tagId : jsstring) (tags : list jsstring) :
  tagId ∉ tags →
  List.filter (λ t, negb (bool_decide (t = tagId))) (tags ++ [tagId]) = tags.
Proof.
  intros Hnot. rewrite List.filter_app. simpl.
  rewrite (bool_decide_eq_true_2 _ eq_refl). simpl. rewrite app_nil_r.
  apply filter_all. intros t Ht.
  apply negb_true_iff, bool_decide_eq_false. by intros ->.
Qed.
End RuleTagFacts.

(** X7: [addTagToRule] writes nothing when it fails.  When it succeeds,
    the tag is one of the registry, the first local rule with the id
    carries it, a tag list without repetition stays without repetition, and
    a second call changes nothing. *)
Theorem addTagToRule_guarded (ruleId tagId : jsstring) (st : Stored.t) :
  match Manager.addTagToRule ruleId tagId st with
  | (Manager.failure _, st') => st' = st
  | (Manager.success _, st') =>
      (∃ t, t ∈ orEmpty (Stored.tags st) ∧ Tag.id t = tagId)
      ∧ (∃ i r r',
           Manager.findRule ruleId (orEmpty (Stored.userRules st)) = Some i
           ∧ orEmpty (Stored.userRules st) !! i = Some r
           ∧ orEmpty (Stored.userRules st') !! i = Some r'
           ∧ Rule.id r' = ruleId
           ∧ tagId ∈ orEmpty (Rule.tags r')
           ∧ (NoDup (orEmpty (Rule.tags r))
              → NoDup (orEmpty (Rule.tags r'))))
      ∧ Manager.addTagToRule ruleId tagId st'
        = (Manager.success (), st')
  end.
Proof.
  unfold Manager.addTagToRule.
  destruct (existsb _ (orEmpty (Stored.tags st))) eqn:Hreg; simpl; [|done].
  destruct (Manager.findRule ruleId (orEmpty (Stored.userRules st)))
    as [i|] eqn:Hfind; [|done].
  destruct (findRule_Some _ _ _ Hfind) as (r & Hr & Hid & _).
  rewrite Hr.
  assert (∃ t, t ∈ orEmpty (Stored.tags st) ∧ Tag.id t = tagId) as Htag.
  { apply existsb_exists in Hreg as (t & Hin & Ht).
    apply bool_decide_eq_true in Ht. exists t.
    by rewrite list_elem_of_In. }
  case_bool_decide as Hin.
  - split; [done|]. split.
    + exists i, r, r. by repeat split.
    + rewrite Hreg, Hfind, Hr. simpl. by rewrite bool_decide_eq_true_2.
  - split; [done|]. simpl. split.
    + exists i, r, (Manager.withTags (orEmpty (Rule.tags r) ++ [tagId]) r).
      split; [done|]. split; [done|].
      split; [by rewrite list_lookup_alter_eq, Hr|]. split; [done|].
      split; [simpl; apply elem_of_app; right; apply list_elem_of_here|].
      simpl. intros Hnd. apply NoDup_app. split; [done|].
      split; [|apply NoDup_singleton].
      intros t Ht Ht'. apply list_elem_of_singleton in Ht'. by subst t.
    + rewrite Hreg. simpl. rewrite findRule_alter, Hfind by done.
      rewrite list_lookup_alter_eq, Hr. simpl.
      rewrite bool_decide_eq_true_2; [done|].
      apply elem_of_app; right; apply list_elem_of_here.
Qed.

(** X8: removing a tag right after adding it to a rule that did not
    carry it undoes the addition: the rule's tag list is again what it
    was (the empty list for a rule that had none), and when the rule had a
    tag list the local rules are exactly those of before. *)
Theorem add_then_remove_tag (ruleId tagId : jsstring) (st : Stored.t)
    (i : nat) (r : Rule.t) :
  existsb (λ t, bool_decide (Tag.id t = tagId)) (orEmpty (Stored.tags st))
  = true →
  Manager.findRule ruleId (orEmpty (Stored.userRules st)) = Some i →
  orEmpty (Stored.userRules st) !! i = Some r →
  tagId ∉ orEmpty (Rule.tags r) →
  Manager.removeTagFromRule ruleId tagId
    (Manager.addTagToRule ruleId tagId st).2
  = (Manager.success (),
     Manager.setUserRules
       (alter (Manager.withTags (orEmpty (Rule.tags r))) i
          (orEmpty (Stored.userRules st))) st)
  ∧ (is_Some (Rule.tags r) →
     (Manager.removeTagFromRule ruleId tagId
        (Manager.addTagToRule ruleId tagId st).2).2
     = Manager.setUserRules (orEmpty (Stored.userRules st)) st).
Proof.
  intros Hreg Hfind Hr Hnot.
  assert (Manager.removeTagFromRule ruleId tagId
            (Manager.addTagToRule ruleId tagId st).2
          = (Manager.success (),
             Manager.setUserRules
               (alter (Manager.withTags (orEmpty (Rule.tags r))) i
                  (orEmpty (Stored.userRules st))) st)) as Heq.
  { unfold Manager.addTagToRule. rewrite Hreg, Hfind, Hr. simpl.
    rewrite (bool_decide_eq_false_2 _ Hnot). simpl.
    unfold Manager.removeTagFromRule. simpl.
    rewrite findRule_alter, Hfind by done.
    rewrite list_lookup_alter_eq, Hr. simpl.
    rewrite filter_snoc_fresh by done.
    rewrite list_alter_alter_eq. done. }
  split; [done|]. intros [tags Htags]. rewrite Heq. simpl. f_equal.
  rewrite Htags. simpl.
  rewrite (list_alter_ext _ id _ (orEmpty (Stored.userRules st)) i);
    [by apply list_alter_id | | done].
  intros x Hx. rewrite Hr in Hx. injection Hx as <-.
  by apply withTags_same.
Qed.

Lemma add_then_remove_tag_witness :
  (Manager.removeTagFromRule (js "L2") (js "t1")
     (Manager.addTagToRule (js "L2") (js "t1") scenario_store).2).2
  = Manager.setUserRules [rule_L1; rule_L2] scenario_store.
Proof.
  apply (proj2 (add_then_remove_tag (js "L2") (js "t1") scenario_store 1
                  rule_L2 eq_refl eq_refl eq_refl (not_elem_of_nil _))).
  by eexists.
Defined.

(* ================================================================== *)
(** ** The store: importing, saving, migrating *)



Lemma merged_setUserRules (l : list Rule.t) (st : Stored.t) :
  Background.getMergedRules (Manager.setUserRules l st)
  = List.filter (Background.isRuleEnabled st) l
    ++ List.filter (Background.isRuleEnabled st)
         (orEmpty (Stored.communityRules st)).
Proof.
  rewrite merged_unfold. simpl.
  f_equal; apply List.filter_ext; intros x; by apply isRuleEnabled_ext.
Qed.

(** X10: a rule saved by [saveLocalRule] or [saveBatchRules] gets the
    flag [enabled: true] whatever the message says, and goes behind the
    local rules there are and before every community rule: the merged list
    afterwards is the old local part, the new rules that pass the overlay
    and the tags, and the old community part.  [saveBatchRules] with no
    rule answers an error and writes nothing. *)
Theorem saved_rules_position (newId : nat → jsstring) (fresh : jsstring)
    (d : Manager.ruleData) (ds : list Manager.ruleData) (st : Stored.t) :
  Rule.enabled (Manager.newRule fresh d) = Some true
  ∧ Background.getMergedRules (Manager.saveLocalRule fresh d st).2
    = List.filter (Background.isRuleEnabled st)
        (orEmpty (Stored.userRules st))
      ++ List.filter (Background.isRuleEnabled st) [Manager.newRule fresh d]
      ++ List.filter (Background.isRuleEnabled st)
           (orEmpty (Stored.communityRules st))
  ∧ Manager.saveBatchRules newId [] st
    = (Manager.failure (js "No rules to save"), st)
  ∧ Background.getMergedRules (Manager.saveBatchRules newId (d :: ds) st).2
    = List.filter (Background.isRuleEnabled st)
        (orEmpty (Stored.userRules st))
      ++ List.filter (Background.isRuleEnabled st)
           (imap (λ k, Manager.newRule (newId k)) (d :: ds))
      ++ List.filter (Background.isRuleEnabled st)
           (orEmpty (Stored.communityRules st)).
Proof.
  split; [done|]. split; [|split; [done|]].
  - unfold Manager.saveLocalRule. simpl snd.
    by rewrite merged_setUserRules, List.filter_app, <- app_assoc.
  - unfold Manager.saveBatchRules. simpl snd.
    by rewrite merged_setUserRules, List.filter_app, <- app_assoc.
Qed.

(** X11: [migrateStorage] leaves all three keys present, and afterwards
    the community rules are those that were stored under
    [communityRules], or none when that key was absent, whatever the old
    [rules] key held: the copy made from it is overwritten by the default
    written after the same snapshot.  With the old key present and
    [communityRules] absent, the old key is removed and the local rules
    and the overlay are emptied.  A second run changes nothing. *)
Theorem migrateStorage_outcome (st : Manager.legacy) :
  let st' := Manager.migrateStorage st in
  Stored.communityRules (Manager.current st')
  = Some (orEmpty (Stored.communityRules (Manager.current st)))
  ∧ is_Some (Stored.userRules (Manager.current st'))
  ∧ is_Some (Stored.tags (Manager.current st'))
  ∧ (is_Some (Manager.rules st) →
     Stored.communityRules (Manager.current st) = None →
     Manager.rules st' = None
     ∧ Stored.userRules (Manager.current st') = Some []
     ∧ Stored.disabledRuleIds (Manager.current st') = Some [])
  ∧ Manager.migrateStorage st' = st'.
Proof.
  destruct st as [old [cr ur dr en tg]]. unfold Manager.migrateStorage.
  simpl.
  destruct old as [old|], cr as [cr|], ur as [ur|], tg as [tg|]; simpl;
    repeat split; eauto; by intros [? ?] || done.
Qed.

(* ================================================================== *)
(** ** Helper functions of the background script *)

Lemma fold_sum (l : jsstring) (a : N) :
  fold_left (λ acc char, acc + char) l a
  = a + fold_left (λ acc char, acc + char) l 0.
Proof.
  revert a. induction l as [|c l IH]; intros a; [simpl; lia|].
  cbn [fold_left]. rewrite (IH (a + c)), (IH (0 + c)). lia.
Qed.

Lemma fold_sum_perm (l k : jsstring) :
  l ≡ₚ k →
  fold_left (λ acc char, acc + char) l 0
  = fold_left (λ acc char, acc + char) k 0.
Proof.
  induction 1 as [|c l k _ IH|c d l|l k m _ IH1 _ IH2]; cbn [fold_left].
  - done.
  - rewrite (fold_sum l), (fold_sum k). by rewrite IH.
  - rewrite (fold_sum l (0 + d + c)), (fold_sum l (0 + c + d)). lia.
  - congruence.
Qed.

(** X12: [getDefaultTagColor] always answers one of the six colours (the
    index never leaves the table), and names made of the same characters
    in another order get the same colour. *)
Theorem getDefaultTagColor_in_table (name : jsstring) :
  (∃ c, Manager.getDefaultTagColor name = Some c ∧ c ∈ Manager.tagColors)
  ∧ ∀ name', name ≡ₚ name' →
             Manager.getDefaultTagColor name'
             = Manager.getDefaultTagColor name.
Proof.
  unfold Manager.getDefaultTagColor. split.
  - set (k := N.to_nat _).
    assert (k < length Manager.tagColors)%nat as Hk.
    { unfold k. simpl length.
      pose proof (N.mod_lt (fold_left (λ acc char, acc + char) name 0)
                    (N.of_nat 6)). lia. }
    apply lookup_lt_is_Some in Hk as [c Hc]. exists c. split; [done|].
    by eapply list_elem_of_lookup_2.
  - intros name' Hperm. by rewrite (fold_sum_perm _ _ Hperm).
Qed.

Lemma getDefaultTagColor_in_table_witness :
  Manager.getDefaultTagColor (js "swen")
  = Manager.getDefaultTagColor (js "news").
Proof.
  apply (proj2 (getDefaultTagColor_in_table (js "news"))).
  apply (bool_decide_unpack _). by vm_compute.
Defined.

(** X13: what [sanitizeForBranch] returns has at most 30 characters, all
    of them letters, digits or hyphens; it is the first 30 characters of
    the input when these are all of that kind, and sanitizing twice is
    sanitizing once. *)
Theorem sanitizeForBranch_safe (str : jsstring) :
  length (Manager.sanitizeForBranch str) = (length str `min` 30)%nat
  ∧ Forall (λ c, Manager.isBranchChar c = true)
      (Manager.sanitizeForBranch str)
  ∧ (Forall (λ c, Manager.isBranchChar c = true) str →
     Manager.sanitizeForBranch str = take 30 str)
  ∧ Manager.sanitizeForBranch (Manager.sanitizeForBranch str)
    = Manager.sanitizeForBranch str.
Proof.
  unfold Manager.sanitizeForBranch.
  assert (∀ l, Forall (λ c, Manager.isBranchChar c = true) l →
               List.map (λ c, if Manager.isBranchChar c then c else 45) l = l)
    as Hid.
  { intros l Hl. induction Hl as [|c l Hc _ IH]; simpl; [done|].
    by rewrite Hc, IH. }
  assert (Forall (λ c, Manager.isBranchChar c = true)
            (List.map (λ c, if Manager.isBranchChar c then c else 45) str))
    as Hsafe.
  { apply Forall_forall. intros c Hc.
    apply list_elem_of_In, in_map_iff in Hc as (d & <- & _).
    by destruct (Manager.isBranchChar d) eqn:Hd. }
  split; [by rewrite length_take, length_map, Nat.min_comm|].
  split; [by apply Forall_take|].
  split; [intros Hstr; by rewrite Hid|].
  rewrite Hid by (by apply Forall_take).
  rewrite take_take. f_equal.
Qed.

Lemma sanitizeForBranch_safe_witness :
  Manager.sanitizeForBranch (js "x-com") = js "x-com".
Proof.
  rewrite (proj1 (proj2 (proj2 (sanitizeForBranch_safe (js "x-com")))));
    [done|].
  apply (bool_decide_unpack _). by vm_compute.
Defined.

Lemma escapeRegex_cons (c : N) (s : jsstring) :
  Manager.escapeRegex (c :: s)
  = (if Manager.isRegexSpecial c then [92; c] else [c])
    ++ Manager.escapeRegex s.
Proof. done. Qed.

(** X14: [escapeRegex] can be undone: taking each backslash as making
    the next character literal gives the input back.  In its output no
    operator of regular expressions stands bare, and the output is at
    least as long as the input and at most twice as long. *)
Theorem escapeRegex_round_trip (str : jsstring) :
  unescape (Manager.escapeRegex str) = str
  ∧ escaped (Manager.escapeRegex str) = true
  ∧ (length str ≤ length (Manager.escapeRegex str) ≤ 2 * length str)%nat.
Proof.
  induction str as [|c s (IH1 & IH2 & IH3)]; [by repeat split|].
  rewrite escapeRegex_cons.
  destruct (Manager.isRegexSpecial c) eqn:Hc.
  - cbn [app unescape escaped N.eqb Pos.eqb length].
    rewrite IH1, IH2, Hc. repeat split; simpl; lia.
  - assert ((c =? 92) = false) as H92.
    { destruct (N.eqb_spec c 92) as [->|]; [by vm_compute in Hc|done]. }
    cbn [app unescape escaped length]. rewrite H92, Hc, IH1, IH2.
    repeat split; simpl; lia.
Qed.

(** X15: [truncate] returns the string itself when that has at most
    [len] characters, and otherwise its first [len] characters followed by
    three full stops, [len] + 3 characters in all; so it never returns more
    than [len] + 3 characters, and what it returns starts as the string
    does.  Absent and empty strings give the empty string. *)
Theorem truncate_bounds (str : option jsstring) (len : nat) :
  (length (Options.truncate str len) ≤ len + 3)%nat
  ∧ take len (Options.truncate str len) = take len (default [] str)
  ∧ ((length (default [] str) ≤ len)%nat →
     Options.truncate str len = default [] str)
  ∧ ((len < length (default [] str))%nat →
     Options.truncate str len = take len (default [] str) ++ js "..."
     ∧ length (Options.truncate str len) = (len + 3)%nat)
  ∧ (str = None ∨ str = Some [] → Options.truncate str len = []).
Proof.
  assert (∀ o : option jsstring,
    (length (@nil N) ≤ len + 3)%nat
    ∧ take len (@nil N) = take len []
    ∧ ((length (@nil N) ≤ len)%nat → @nil N = [])
    ∧ ((len < length (@nil N))%nat →
       @nil N = take len [] ++ js "..."
       ∧ length (@nil N) = (len + 3)%nat)
    ∧ (o = None ∨ o = Some [] → @nil N = [])) as Hempty.
  { intros o. split; [simpl; lia|]. split; [done|]. split; [done|].
    split; [|done]. intros Hlt. simpl in Hlt. lia. }
  unfold Options.truncate. destruct str as [[|c s]|]; simpl default.
  - apply Hempty.
  - destruct (Nat.ltb_spec len (length (c :: s))) as [Hlt|Hge].
    + split; [rewrite length_app, length_take; simpl length; lia|].
      split; [|split; [intros Hle; exfalso; simpl in *; lia|split]].
      * rewrite take_app_le by (rewrite length_take; lia).
        by rewrite take_take, Nat.min_id.
      * intros _. split; [done|].
        rewrite length_app, length_take.
        change (length (js "...")) with 3%nat. simpl in Hlt. simpl length.
        lia.
      * by intros [?|?].
    + split; [lia|]. split; [done|]. split; [done|].
      split; [intros Hlt; exfalso; simpl in *; lia|].
      by intros [?|?].
  - apply Hempty.
Qed.

Lemma truncate_bounds_witness :
  Options.truncate (Some (js "abc")) 5 = js "abc"
  ∧ Options.truncate (Some (js "abcdefgh")) 5 = js "abcde...".
Proof.
  split.
  - apply (proj1 (proj2 (proj2 (truncate_bounds (Some (js "abc")) 5)))).
    simpl. lia.
  - apply (proj1 (proj2 (proj2 (proj2
             (truncate_bounds (Some (js "abcdefgh")) 5))))).
    simpl. lia.
Defined.

(* ================================================================== *)
(** ** What the popup and the options page show *)

(** X16: the number of active rules the popup shows is never smaller
    than the number of rules in the merged list; both are the same when no
    tag is disabled and no community rule carries [enabled: false]. *)
Theorem popup_count_bounds (stored : Stored.t) :
  (length (Background.getMergedRules stored) ≤ Popup.rulesCount stored)%nat
  ∧ ((∀ t, t ∈ orEmpty (Stored.tags stored) → Tag.enabled t = true) →
     (∀ r, r ∈ orEmpty (Stored.communityRules stored) →
           Rule.enabled r ≠ Some false) →
     length (Background.getMergedRules stored) = Popup.rulesCount stored).
Proof.
  unfold Popup.rulesCount. rewrite merged_unfold, length_app.
  assert (∀ r, Background.isRuleEnabled stored r = true →
    negb (bool_decide (Rule.enabled r = Some false))
    && negb (bool_decide
               (Rule.id r
                ∈ (list_to_set (orEmpty (Stored.disabledRuleIds stored))
                   : gset jsstring))) = true) as Himp.
  { intros r Hr. apply isRuleEnabled_spec in Hr as (HD & Hen & _).
    rewrite andb_true_iff, !negb_true_iff, !bool_decide_eq_false.
    by rewrite elem_of_list_to_set. }
  split.
  - apply Nat.add_le_mono; apply filter_length_mono; intros r _ Hr.
    + by apply Himp.
    + apply Himp in Hr. by apply andb_true_iff in Hr as [_ ?].
  - intros Htags Hcomm.
    assert (∀ r, Rule.id r ∉ orEmpty (Stored.disabledRuleIds stored) →
                 Rule.enabled r ≠ Some false →
                 Background.isRuleEnabled stored r = true) as Hback.
    { intros r HD Hen. apply isRuleEnabled_spec. split; [done|].
      split; [done|]. intros tid _ (t & Ht & _ & Hoff).
      rewrite (Htags t Ht) in Hoff. done. }
    f_equal; apply f_equal, List.filter_ext_in; intros r Hr;
      apply eq_true_iff_eq; split; intros Hx.
    + by apply Himp.
    + apply andb_true_iff in Hx as [Hen HD].
      apply negb_true_iff, bool_decide_eq_false in Hen, HD.
      rewrite elem_of_list_to_set in HD. by apply Hback.
    + apply Himp in Hx. by apply andb_true_iff in Hx as [_ ?].
    + apply negb_true_iff, bool_decide_eq_false in Hx.
      rewrite elem_of_list_to_set in Hx. apply Hback; [done|].
      apply Hcomm. by apply list_elem_of_In.
Qed.

Lemma popup_count_bounds_witness :
  length (Background.getMergedRules all_on_store)
  = Popup.rulesCount all_on_store.
Proof.
  apply (proj2 (popup_count_bounds all_on_store)).
  - intros t Ht. apply list_elem_of_singleton in Ht. by subst t.
  - intros r Hr. simpl in Hr.
    apply elem_of_cons in Hr as [->|Hr]; [done|].
    apply list_elem_of_singleton in Hr. by subst r.
Defined.

(** X17: a rule that the options page draws as disabled is not in the
    merged list: a local rule with [enabled: false], or a community rule
    whose id is in the overlay. *)
Theorem shown_disabled_is_off (type : Options.ruleType) (stored : Stored.t)
    (r : Rule.t) :
  Options.isDisabled type (Options.disabledIdsFor type stored) r = true →
  r ∉ Background.getMergedRules stored.
Proof.
  intros Hoff Hin. apply getMergedRules_elem in Hin as [_ (HD & Hen & _)].
  destruct type; simpl in Hoff; apply bool_decide_eq_true in Hoff.
  - done.
  - by rewrite elem_of_list_to_set in Hoff.
Qed.

Lemma shown_disabled_is_off_witness :
  rule_C2 ∉ Background.getMergedRules scenario_store.
Proof.
  apply (shown_disabled_is_off Options.community).
  apply bool_decide_eq_true. vm_compute. set_solver.
Defined.

(** X18: after [toggleRule] the options page draws the rule the way the
    box was set.  When no local rule has the id, every rule with the id is
    drawn in the community list as disabled exactly when the flag given was
    false; when a local rule has it, the first such rule is drawn in the
    local list as disabled exactly when the flag was false, and the
    community list is drawn as before. *)
Theorem toggle_then_display (ruleId : jsstring) (enabled : bool)
    (st : Stored.t) :
  let st' := (Manager.toggleRule ruleId enabled st).2 in
  (Manager.findRule ruleId (orEmpty (Stored.userRules st)) = None →
   ∀ r, Rule.id r = ruleId →
        Options.isDisabled Options.community
          (Options.disabledIdsFor Options.community st') r
        = negb enabled)
  ∧ (∀ i, Manager.findRule ruleId (orEmpty (Stored.userRules st)) = Some i →
          (∃ r', orEmpty (Stored.userRules st') !! i = Some r'
                 ∧ Rule.id r' = ruleId
                 ∧ Options.isDisabled Options.user
                     (Options.disabledIdsFor Options.user st') r'
                   = negb enabled)
          ∧ Options.disabledIdsFor Options.community st'
            = Options.disabledIdsFor Options.community st).
Proof.
  intros st'. subst st'. unfold Manager.toggleRule. split.
  - intros Hnone r Hid. rewrite Hnone. simpl. rewrite Hid.
    destruct enabled; simpl.
    + apply bool_decide_eq_false. rewrite elem_of_list_to_set.
      intros Hin. apply list_elem_of_In, filter_In in Hin as [_ Hne].
      by rewrite bool_decide_eq_true_2 in Hne.
    + apply bool_decide_eq_true. rewrite elem_of_list_to_set.
      case_bool_decide; [done|].
      apply elem_of_app. right. apply list_elem_of_here.
  - intros i Hi. rewrite Hi. simpl.
    destruct (findRule_Some _ _ _ Hi) as (r & Hr & Hid & _).
    split; [|done]. exists (Manager.withEnabled enabled r).
    split; [by rewrite list_lookup_alter_eq, Hr|]. split; [done|].
    simpl. by destruct enabled.
Qed.

Lemma toggle_then_display_witness :
  Options.isDisabled Options.community
    (Options.disabledIdsFor Options.community
       (Manager.toggleRule (js "C1") false scenario_store).2) rule_C1
  = true.
Proof.
  apply (proj1 (toggle_then_display (js "C1") false scenario_store));
    by vm_compute.
Defined.

(* ================================================================== *)
(** ** More on the engine *)

Section EngineLifting.
Context {H : Host}.
Import Replacer.

Lemma preserves_forOf_in {A} (I : state → Prop) (l : list A) (body : A → M) :
  (∀ x, x ∈ l → preserves I (body x)) → preserves I (forOf l body).
Proof.
  induction l as [|x l IH]; intros Hbody; simpl.
  - apply preserves_skip.
  - apply preserves_andThen.
    + apply Hbody, list_elem_of_here.
    + apply IH. intros y Hy. apply Hbody. by apply list_elem_of_further.
Qed.

(** What the two mutators keep, every rule application keeps. *)
Lemma applyRuleToPage_preserves (I : state → Prop) (rule : Rule.t) :
  (∀ el, preserves I (applyRuleToElement el rule)) →
  (∀ textNode, preserves I (applyRuleToTextNode textNode rule)) →
  preserves I (applyRuleToPage rule).
Proof.
  intros Hel Htext. unfold applyRuleToPage.
  destruct (_ && _); [apply preserves_skip|].
  apply preserves_andThen.
  - destruct (JS.truthy (Rule.selector rule)); [|apply preserves_skip].
    apply preserves_tryCatch. intros s Hs. unfold applyRuleBySelector.
    destruct (querySelectorAll _ _); [|done].
    apply preserves_forOf; [|done].
    intros el s' Hs'. destruct (negb _); [by apply Hel | done].
  - destruct (JS.truthy (Rule.contentPattern rule));
      [|apply preserves_skip].
    intros s Hs. unfold applyRuleByContent.
    destruct (RegExp_gi _) as [regex|]; [|done].
    assert (I (final (replaceMatchingText rule regex s))) as Ht.
    { unfold replaceMatchingText. destruct (body (page s)); [|done].
      apply preserves_forOf; [|done]. intros x. apply Htext. }
    assert (I (final (applyRuleToMatchingElements rule regex s))) as He.
    { unfold applyRuleToMatchingElements. destruct (body (page s)); [|done].
      apply preserves_forOf; [|done].
      intros el s' Hs'. destruct (elementQualifies _ _ _ _); [|done].
      by apply Hel. }
    destruct (Rule.action rule); done.
Qed.

(** An invariant that does not look at the counter and that every
    listed rule keeps is kept by a whole run. *)
Lemma applyAll_preserves (I : state → Prop) hostname s :
  (∀ rule, rule ∈ rules s → preserves I (applyRuleToPage rule)) →
  I (mkState (rules s) (enabled s) 0 (page s)) →
  I s →
  I (final (applyAll hostname s)).
Proof.
  intros Hrules H0 Hs. rewrite applyAll_unfold.
  destruct (negb (enabled s)); [done|].
  apply preserves_forOf_in; [|done].
  intros rule Hr. apply Hrules.
  by apply list_elem_of_In, filter_In in Hr as [Hr%list_elem_of_In _].
Qed.
End EngineLifting.

Section CounterFacts.
Context {H : Host}.
Import Replacer.

Lemma size_mark (i : N) (P Q : gset N) :
  i ∉ P → i ∈ Q → P ⊆ Q → (S (size P) ≤ size Q)%nat.
Proof.
  intros Hi HQ Hsub.
  assert (size ({[i]} ∪ P) = S (size P)) as <-.
  { rewrite size_union by (by apply disjoint_singleton_l).
    by rewrite size_singleton. }
  apply subseteq_size, union_subseteq.
  split; [by apply singleton_subseteq_l | done].
Qed.

Lemma size_mark_exactly (i : N) (P : gset N) :
  i ∉ P → size ({[i]} ∪ P) = S (size P).
Proof.
  intros Hi. rewrite size_union by (by apply disjoint_singleton_l).
  by rewrite size_singleton.
Qed.

Lemma applyRuleToElement_counted base el rule :
  preserves (counted base) (applyRuleToElement el rule).
Proof.
  intros s Hs. unfold counted in *.
  destruct (Dom.hasAttribute el (page s)) eqn:Hm.
  - by rewrite applyRuleToElement_marked.
  - destruct (applyRuleToElement_unmarked el rule s Hm)
      as (Hin & Hsub & -> & _).
    apply bool_decide_eq_false in Hm.
    pose proof (size_mark el _ _ Hm Hin Hsub). lia.
Qed.

Lemma applyRuleToElement_counted_exactly base el rule :
  parsesUnmarked →
  preserves (counted_exactly base) (applyRuleToElement el rule).
Proof.
  intros Hparse s Hs. unfold counted_exactly in *.
  unfold applyRuleToElement.
  destruct (Dom.hasAttribute el (page s)) eqn:Hm; [done|].
  apply bool_decide_eq_false in Hm.
  pose proof (size_mark_exactly el _ Hm) as Hsize.
  destruct (Rule.action rule); simpl.
  - destruct (JS.truthy (Rule.replacement rule)); simpl; [|lia].
    destruct (throws m_innerHTML el); simpl; [lia|].
    unfold Dom.setInnerHTML.
    pose proof (Hparse (default [] (Rule.replacement rule))
                  (Dom.fresh (Dom.setAttribute el (page s)))) as Hnone.
    destruct (Dom.instantiateAll _ _) as [[next marks] new].
    simpl in *. subst marks. rewrite (left_id_L ∅ (∪)). lia.
  - destruct (throws m_remove el); simpl; [lia|].
    assert (Dom.processed (Dom.removeNode el (Dom.setAttribute el (page s)))
            = {[el]} ∪ Dom.processed (page s)) as ->; [|lia].
    unfold Dom.removeNode. simpl.
    destruct (Dom.documentElement (page s)) as [r|]; simpl; [|done].
    destruct (Dom.nodeId r =? el); [done|].
    by destruct (Dom.find el r).
  - destruct (throws m_display el); simpl; lia.
  - lia.
Qed.

Lemma applyRuleToTextNode_counted base textNode rule :
  preserves (counted base) (applyRuleToTextNode textNode rule)
  ∧ preserves (counted_exactly base) (applyRuleToTextNode textNode rule).
Proof.
  assert (∀ parent old new s,
    Dom.hasAttribute parent (page s) = false →
    (counted base s →
     counted base (final (substitute textNode parent old new s)))
    ∧ (counted_exactly base s →
       counted_exactly base (final (substitute textNode parent old new s))))
    as Hsub.
  { intros parent old new s Hm. apply bool_decide_eq_false in Hm.
    pose proof (size_mark_exactly parent _ Hm) as Hsize.
    unfold substitute, counted, counted_exactly.
    case_bool_decide; [|done].
    destruct (throws m_textContent textNode); simpl; [done|].
    split; lia. }
  split; intros s Hs; unfold applyRuleToTextNode;
    destruct (Dom.parentElement textNode (page s)) as [parent|]; try done;
    destruct (Dom.hasAttribute _ _) eqn:Hm; try done;
    destruct (RegExp_gi _); try done;
    destruct (Rule.action rule); try done;
    by apply Hsub.
Qed.
End CounterFacts.

(** X19: the applied-count never runs ahead of the markers.  After a
    run of the enabled engine the count is at most the number of elements
    that carry the marker now and did not before, and it is exactly that
    number when the markup of replacements brings no marker of its own. *)
Theorem appliedCount_counts_markers {H : Host} (hostname : jsstring)
    (s : Replacer.state) :
  Replacer.enabled s = true →
  let s' := Replacer.final (Replacer.applyAll hostname s) in
  (size (Dom.processed (Replacer.page s)) + Replacer.appliedCount s'
   ≤ size (Dom.processed (Replacer.page s')))%nat
  ∧ (parsesUnmarked →
     (size (Dom.processed (Replacer.page s)) + Replacer.appliedCount s')%nat
     = size (Dom.processed (Replacer.page s'))).
Proof.
  intros Hen s'. subst s'. rewrite applyAll_unfold, Hen. simpl negb.
  cbv iota. split.
  - apply (preserves_forOf (counted _)); [|unfold counted; simpl; lia].
    intros rule. apply applyRuleToPage_preserves.
    + intros el. apply applyRuleToElement_counted.
    + intros textNode. apply applyRuleToTextNode_counted.
  - intros Hparse.
    apply (preserves_forOf (counted_exactly _));
      [|unfold counted_exactly; simpl; lia].
    intros rule. apply applyRuleToPage_preserves.
    + intros el. by apply applyRuleToElement_counted_exactly.
    + intros textNode. apply applyRuleToTextNode_counted.
Qed.

Lemma reference_parser_unmarked : parsesUnmarked (H := RefHost.browser).
Proof. intros html next. reflexivity. Qed.

Lemma appliedCount_counts_markers_witness :
  (0 + Replacer.appliedCount
         (Replacer.final
            (Replacer.applyAll (H := RefHost.browser) (js "example.com")
               (engine [rule_remove_X] page_nested))))%nat
  = size (Dom.processed
            (Replacer.page
               (Replacer.final
                  (Replacer.applyAll (H := RefHost.browser)
                     (js "example.com")
                     (engine [rule_remove_X] page_nested))))).
Proof.
  apply (proj2 (appliedCount_counts_markers (H := RefHost.browser)
                  (js "example.com") (engine [rule_remove_X] page_nested)
                  eq_refl) reference_parser_unmarked).
Defined.

Section HideFacts.
Context {H : Host}.
Import Replacer.

Lemma hide_rule_sameTree s0 rule :
  Rule.action rule = Action.hide →
  preserves (sameTree s0) (applyRuleToPage rule).
Proof.
  intros Hact. apply applyRuleToPage_preserves.
  - intros el s (Hdoc & Hdet & HP & HH & Hr).
    unfold applyRuleToElement. rewrite Hact.
    destruct (Dom.hasAttribute el (page s)); [done|].
    destruct (throws m_display el); simpl;
      (split; [done|]; split; [done|]; split;
       [etrans; [exact HP|apply union_subseteq_r]|]; split; [|done]);
      [done | etrans; [exact HH|apply union_subseteq_r]].
  - intros textNode s Hs. unfold applyRuleToTextNode. rewrite Hact.
    destruct (Dom.parentElement textNode (page s)); [|done].
    destruct (Dom.hasAttribute _ _); [done|].
    by destruct (RegExp_gi _).
Qed.
End HideFacts.

(** X20: [hide] rules are not destructive.  Whatever the selectors and
    the patterns, and whether or not a style assignment raises, a run with
    only [hide] rules leaves the document tree and the cut subtrees exactly
    as they were; it only adds markers and hidden elements, and keeps the
    rule list. *)
Theorem hide_rules_keep_tree {H : Host} (hostname : jsstring)
    (s : Replacer.state) :
  Forall (λ rule, Rule.action rule = Action.hide) (Replacer.rules s) →
  let s' := Replacer.final (Replacer.applyAll hostname s) in
  Dom.documentElement (Replacer.page s')
  = Dom.documentElement (Replacer.page s)
  ∧ Dom.detached (Replacer.page s') = Dom.detached (Replacer.page s)
  ∧ Dom.processed (Replacer.page s) ⊆ Dom.processed (Replacer.page s')
  ∧ Dom.hidden (Replacer.page s) ⊆ Dom.hidden (Replacer.page s')
  ∧ Replacer.rules s' = Replacer.rules s.
Proof.
  intros Hall s'. subst s'. apply (applyAll_preserves (sameTree s)).
  - intros rule Hr. apply hide_rule_sameTree.
    rewrite Forall_forall in Hall. by apply Hall.
  - by repeat split.
  - by repeat split.
Qed.

Lemma hide_rules_keep_tree_witness :
  Dom.documentElement
    (Replacer.page
       (Replacer.final
          (Replacer.applyAll (H := RefHost.browser) (js "example.com")
             (engine [rule_hide_X] page_nested))))
  = Dom.documentElement page_nested.
Proof.
  apply (hide_rules_keep_tree (H := RefHost.browser) (js "example.com")
           (engine [rule_hide_X] page_nested)).
  by repeat constructor.
Defined.

Section SelectorFacts.
Context {H : Host}.
Import Replacer.

Lemma applyRuleToElement_returns el rule s :
  (∀ m e, throws m e = false) →
  ∃ s', applyRuleToElement el rule s = Done s'
        ∧ el ∈ Dom.processed (page s')
        ∧ Dom.processed (page s) ⊆ Dom.processed (page s').
Proof.
  intros Hno. destruct (Dom.hasAttribute el (page s)) eqn:Hm.
  - exists s. rewrite applyRuleToElement_marked by done.
    split; [done|]. split; [by apply bool_decide_eq_true in Hm | done].
  - pose proof (applyRuleToElement_unmarked el rule s Hm) as (Hin & Hsub & _).
    revert Hin Hsub. unfold applyRuleToElement. rewrite Hm, !Hno.
    destruct (Rule.action rule); simpl;
      try destruct (JS.truthy (Rule.replacement rule)); eauto.
Qed.

Lemma selector_loop rule (l : list N) s :
  (∀ m e, throws m e = false) →
  ∃ s',
    forOf l
      (λ el s', if negb (Dom.hasAttribute el (page s'))
                then applyRuleToElement el rule s' else Done s') s
    = Done s'
    ∧ (∀ el, el ∈ l → el ∈ Dom.processed (page s'))
    ∧ Dom.processed (page s) ⊆ Dom.processed (page s').
Proof.
  intros Hno. revert s. induction l as [|el l IH]; intros s.
  - exists s. split; [done|]. split; [|done].
    intros el Hel. by apply elem_of_nil in Hel.
  - assert (∃ sa,
      (if negb (Dom.hasAttribute el (page s))
       then applyRuleToElement el rule s else Done s) = Done sa
      ∧ el ∈ Dom.processed (page sa)
      ∧ Dom.processed (page s) ⊆ Dom.processed (page sa))
      as (sa & Hstep & Hel & Hsub).
    { destruct (Dom.hasAttribute el (page s)) eqn:Hm; simpl.
      - exists s. split; [done|].
        split; [by apply bool_decide_eq_true in Hm | done].
      - by apply applyRuleToElement_returns. }
    destruct (IH sa) as (s' & Hrest & Hall & Hsub').
    exists s'. split; [simpl; unfold andThen; by rewrite Hstep|].
    split; [|by etrans].
    intros e He. apply elem_of_cons in He as [->|He]; [|by apply Hall].
    by apply Hsub'.
Qed.
End SelectorFacts.

(** X21: a selector match needs no pattern and passes no length test.
    When no DOM mutation raises, every element that the rule's selector
    returns carries the marker after the rule was applied to the page,
    whatever its text and whatever the content phase does afterwards. *)
Theorem selector_matches_are_all_applied {H : Host} (rule : Rule.t)
    (s : Replacer.state) (elements : list N) :
  (∀ m e, throws m e = false) →
  JS.truthy (Rule.selector rule) = true →
  querySelectorAll (default [] (Rule.selector rule)) (Replacer.page s)
  = Some elements →
  ∀ el, el ∈ elements →
        el ∈ Dom.processed
               (Replacer.page
                  (Replacer.final (Replacer.applyRuleToPage rule s))).
Proof.
  intros Hno Hsel Hquery el Hel. rewrite applyRuleToPage_unfold, Hsel.
  unfold Replacer.tryCatch, Replacer.applyRuleBySelector. rewrite Hquery.
  destruct (selector_loop rule elements s Hno) as (s' & -> & Hall & _).
  simpl. destruct (JS.truthy (Rule.contentPattern rule)); [|by apply Hall].
  apply (applyRuleByContent_keeps el rule). by apply Hall.
Qed.

Lemma selector_matches_are_all_applied_witness :
  4 ∈ Dom.processed
        (Replacer.page
           (Replacer.final
              (Replacer.applyRuleToPage (H := RefHost.browser) rule_hide_p
                 (engine [rule_hide_p] page_X)))).
Proof.
  apply (selector_matches_are_all_applied (H := RefHost.browser) rule_hide_p
           (engine [rule_hide_p] page_X) [4]); try done.
  apply list_elem_of_here.
Defined.

Section ScanFacts.
Context {H : Host}.
Import Replacer.

Lemma applyRuleToElement_marks_only el rule s :
  Rule.action rule ≠ Action.replace →
  Dom.processed (page (final (applyRuleToElement el rule s)))
  ⊆ {[el]} ∪ Dom.processed (page s).
Proof.
  intros Hact. unfold applyRuleToElement.
  destruct (Dom.hasAttribute el (page s)); [apply union_subseteq_r|].
  destruct (Rule.action rule); [done| | |done].
  - destruct (throws m_remove el); simpl; [done|].
    unfold Dom.removeNode. simpl.
    destruct (Dom.documentElement (page s)) as [r|]; simpl; [|done].
    destruct (Dom.nodeId r =? el); [done|]. by destruct (Dom.find el r).
  - by destruct (throws m_display el).
Qed.

Lemma allElements_spec (b : Dom.node) (i : N) :
  i ∈ allElements b
  ↔ ∃ n, n ∈ Dom.descendants b ∧ Dom.nodeId n = i
         ∧ tagIn [js "script"; js "style"; js "noscript"] n = false.
Proof.
  unfold allElements. rewrite list_elem_of_In, in_map_iff. split.
  - intros (n & Hid & Hn). apply filter_In in Hn as [Hn Htag].
    exists n. rewrite list_elem_of_In. by apply negb_true_iff in Htag.
  - intros (n & Hn & Hid & Htag). exists n. split; [done|].
    apply filter_In. rewrite <- list_elem_of_In. by rewrite Htag.
Qed.
End ScanFacts.

(** X22: the element scan of a [remove] or [hide] rule marks, and so
    removes or hides, nothing but descendant elements of the body that are
    not [script], [style] or [noscript]: every marker there is after
    [applyRuleByContent] was there before or is the identity of such an
    element.  The [html], [head] and [body] elements are never among
    them. *)
Theorem element_scan_scope {H : Host} (rule : Rule.t) (s : Replacer.state)
    (b : Dom.node) :
  Rule.action rule = Action.remove ∨ Rule.action rule = Action.hide →
  Replacer.body (Replacer.page s) = Some b →
  ∀ i, i ∈ Dom.processed
             (Replacer.page
                (Replacer.final (Replacer.applyRuleByContent rule s))) →
       i ∈ Dom.processed (Replacer.page s)
       ∨ ∃ n, n ∈ Dom.descendants b ∧ Dom.nodeId n = i
              ∧ Replacer.tagIn [js "script"; js "style"; js "noscript"] n
                = false.
Proof.
  intros Hact Hbody i Hi.
  assert (Dom.processed
            (Replacer.page
               (Replacer.final (Replacer.applyRuleByContent rule s)))
          ⊆ Dom.processed (Replacer.page s)
            ∪ list_to_set (Replacer.allElements b)) as Hsub.
  { unfold Replacer.applyRuleByContent.
    destruct (RegExp_gi _) as [regex|]; [|apply union_subseteq_l].
    assert (Replacer.final
              (match Rule.action rule with
               | Action.remove | Action.hide =>
                   Replacer.applyRuleToMatchingElements rule regex s
               | _ => Replacer.replaceMatchingText rule regex s
               end)
            = Replacer.final
                (Replacer.applyRuleToMatchingElements rule regex s)) as ->.
    { by destruct Hact as [-> | ->]. }
    unfold Replacer.applyRuleToMatchingElements. rewrite Hbody.
    apply (preserves_forOf_in
             (λ s', Dom.processed (Replacer.page s')
                    ⊆ Dom.processed (Replacer.page s)
                      ∪ list_to_set (Replacer.allElements b)));
      [|apply union_subseteq_l].
    intros el Hel s' Hs'.
    destruct (Replacer.elementQualifies _ _ _ _); [|done].
    etrans; [apply applyRuleToElement_marks_only|].
    - destruct Hact as [-> | ->]; done.
    - apply union_subseteq. split; [|done].
      apply singleton_subseteq_l, elem_of_union. right.
      by apply elem_of_list_to_set. }
  apply Hsub, elem_of_union in Hi as [Hi|Hi]; [by left|].
  right. apply elem_of_list_to_set in Hi. by apply allElements_spec.
Qed.

Lemma element_scan_scope_witness :
  3 ∉ Dom.processed
        (Replacer.page
           (Replacer.final
              (Replacer.applyRuleByContent (H := RefHost.browser)
                 rule_remove_X (engine [rule_remove_X] page_nested)))).
Proof.
  intros Hin.
  destruct (element_scan_scope (H := RefHost.browser) rule_remove_X
              (engine [rule_remove_X] page_nested)
              (elem 3 "BODY"
                 [elem 4 "DIV"
                    [elem 5 "B" [Dom.Text 6 (js "aXa")];
                     elem 7 "I" [Dom.Text 8 (js "X")];
                     Dom.Text 9 (js "X")]])
              (or_introl eq_refl) eq_refl 3 Hin) as [Hold|(n & Hn & Hid & _)].
  - by apply not_elem_of_empty in Hold.
  - vm_compute in Hn.
    repeat (apply elem_of_cons in Hn as [->|Hn]; [by vm_compute in Hid|]).
    by apply elem_of_nil in Hn.
Defined.

Section WalkerFacts.
Context {H : Host}.

Lemma detector_walker_is_replacer_walker marked above n :
  Detector.acceptedTextNodes marked above n
  = Replacer.acceptedTextNodes marked above n.
Proof. reflexivity. Qed.

Lemma acceptedTextNodes_unfold marked above i a ch :
  Replacer.acceptedTextNodes marked above (Dom.Element i a ch)
  = List.flat_map
      (λ c, match c with
            | Dom.Text _ _ =>
                if Replacer.tagIn
                     [js "script"; js "style"; js "noscript"; js "textarea";
                      js "input"] (Dom.Element i a ch)
                   || (above || bool_decide (i ∈ marked))
                then [] else [c]
            | Dom.Element _ _ _ =>
                Replacer.acceptedTextNodes marked
                  (above || bool_decide (i ∈ marked)) c
            end) ch.
Proof.
  cbn [Replacer.acceptedTextNodes].
  generalize (Replacer.tagIn
                [js "script"; js "style"; js "noscript"; js "textarea";
                 js "input"] (Dom.Element i a ch)).
  intros t. induction ch as [|c ch IH]; [done|].
  cbn [List.flat_map]. rewrite <- IH.
  destruct c as [j d|j b l]; [|done].
  by destruct (_ || _).
Qed.

(** Below a marked element the walker accepts nothing. *)
Lemma acceptedTextNodes_closed marked n :
  ∀ above, above = true ∨ Dom.nodeId n ∈ marked →
           Replacer.acceptedTextNodes marked above n = [].
Proof.
  induction n as [i d|i a ch IH] using node_induction; intros above Hc;
    [done|].
  rewrite acceptedTextNodes_unfold.
  assert (above || bool_decide (i ∈ marked) = true) as ->.
  { destruct Hc as [->|Hi]; [done|].
    rewrite (bool_decide_eq_true_2 _ Hi). apply orb_true_r. }
  rewrite orb_true_r. clear Hc.
  induction IH as [|c ch Hc' _ IHch]; [done|].
  cbn [List.flat_map]. rewrite IHch.
  destruct c as [j d|j b l]; [done|].
  rewrite Hc' by (by left). done.
Qed.

(** With more markers the walker accepts a part of what it accepted. *)
Lemma acceptedTextNodes_mono (marked marked' : gset N) n :
  marked ⊆ marked' →
  ∀ above above', (above = true → above' = true) →
    Replacer.acceptedTextNodes marked' above' n
    `sublist_of` Replacer.acceptedTextNodes marked above n.
Proof.
  intros Hsub.
  induction n as [i d|i a ch IH] using node_induction;
    intros above above' Habove; [done|].
  rewrite !acceptedTextNodes_unfold.
  assert (above || bool_decide (i ∈ marked) = true →
          above' || bool_decide (i ∈ marked') = true) as Hclosest.
  { rewrite !orb_true_iff, !bool_decide_eq_true.
    intros [?|?]; [left; by apply Habove | right; by apply Hsub]. }
  induction IH as [|c ch Hc _ IHch]; [done|].
  cbn [List.flat_map]. apply sublist_app; [|done].
  destruct c as [j d|j b l]; [|by apply Hc].
  destruct (Replacer.tagIn _ _); simpl; [done|].
  destruct (above || bool_decide (i ∈ marked)) eqn:Hcl.
  - by rewrite Hclosest.
  - destruct (above' || bool_decide (i ∈ marked')); [|done].
    apply sublist_nil_l.
Qed.

Lemma flat_map_sublist {A B} (f : A → list B) (l k : list A) :
  l `sublist_of` k → List.flat_map f l `sublist_of` List.flat_map f k.
Proof.
  induction 1 as [|x l k _ IH|x l k _ IH]; simpl; [done| |].
  - by apply sublist_app.
  - by apply sublist_inserts_l.
Qed.
End WalkerFacts.

(** X23: once the body element or the [html] element carries the marker,
    text is out of reach: the text walk of a [replace] rule changes
    nothing and returns, and the detector finds no text occurrence. *)
Theorem marked_body_stops_text {H : Host} (patterns : list regexp)
    (rule : Rule.t) (regex : regexp) (s : Replacer.state) (b : Dom.node) :
  Replacer.body (Replacer.page s) = Some b →
  Dom.nodeId b ∈ Dom.processed (Replacer.page s)
  ∨ (∃ r, Dom.documentElement (Replacer.page s) = Some r
          ∧ Dom.nodeId r ∈ Dom.processed (Replacer.page s)) →
  Replacer.replaceMatchingText rule regex s = Replacer.Done s
  ∧ Detector.findTextOccurrences patterns (Replacer.page s) = Some [].
Proof.
  intros Hbody Hmarked.
  assert (Replacer.acceptedTextNodes (Dom.processed (Replacer.page s))
            (match Dom.documentElement (Replacer.page s) with
             | Some r => Dom.hasAttribute (Dom.nodeId r) (Replacer.page s)
             | None => false
             end) b = []) as Hnone.
  { apply acceptedTextNodes_closed.
    destruct Hmarked as [Hb|(r & -> & Hr)]; [by right|]. left.
    by apply bool_decide_eq_true. }
  unfold Replacer.replaceMatchingText, Detector.findTextOccurrences.
  rewrite Hbody.
  change Detector.acceptedTextNodes with Replacer.acceptedTextNodes.
  by rewrite Hnone.
Qed.

Lemma marked_body_stops_text_witness :
  Replacer.replaceMatchingText (H := RefHost.browser) rule_replace_X_by_Y
    (js "X") (engine [rule_replace_X_by_Y] page_marked_body)
  = Replacer.Done (engine [rule_replace_X_by_Y] page_marked_body).
Proof.
  apply (marked_body_stops_text (H := RefHost.browser) [js "X"]
           rule_replace_X_by_Y (js "X")
           (engine [rule_replace_X_by_Y] page_marked_body)
           (elem 3 "BODY" [elem 4 "P" [Dom.Text 5 (js "X")]]) eq_refl).
  left. apply (bool_decide_unpack _). by vm_compute.
Defined.

Lemma hide_run_sameTree {H : Host} (hostname : jsstring)
    (s : Replacer.state) :
  Forall (λ rule, Rule.action rule = Action.hide) (Replacer.rules s) →
  sameTree s (Replacer.final (Replacer.applyAll hostname s)).
Proof.
  intros Hall. apply (applyAll_preserves (sameTree s)).
  - intros rule Hr. apply hide_rule_sameTree.
    rewrite Forall_forall in Hall. by apply Hall.
  - by repeat split.
  - by repeat split.
Qed.

(** X24: hiding can only shrink what the detector reports.  After a
    run with only [hide] rules the detector's text occurrences are a
    subsequence of those it reported before: text inside newly marked
    elements is gone from the statistics, nothing is added. *)
Theorem hiding_shrinks_stats {H : Host} (patterns : list regexp)
    (hostname : jsstring) (s : Replacer.state)
    (occurrences : list (Dom.node * regexp)) :
  Forall (λ rule, Rule.action rule = Action.hide) (Replacer.rules s) →
  Detector.findTextOccurrences patterns (Replacer.page s)
  = Some occurrences →
  ∃ occurrences',
    Detector.findTextOccurrences patterns
      (Replacer.page (Replacer.final (Replacer.applyAll hostname s)))
    = Some occurrences'
    ∧ occurrences' `sublist_of` occurrences.
Proof.
  intros Hall Hocc.
  destruct (hide_run_sameTree hostname s Hall) as (Hdoc & _ & Hsub & _).
  revert Hocc. unfold Detector.findTextOccurrences, Replacer.body.
  rewrite Hdoc.
  destruct (Dom.documentElement (Replacer.page s)) as [r|]; [|done].
  destruct (List.find _ _) as [b|]; [|done].
  intros [= <-]. eexists. split; [done|].
  apply flat_map_sublist.
  change Detector.acceptedTextNodes with Replacer.acceptedTextNodes.
  apply acceptedTextNodes_mono; [done|].
  unfold Dom.hasAttribute. rewrite !bool_decide_eq_true. apply Hsub.
Qed.

Lemma hiding_shrinks_stats_witness :
  ∃ occurrences',
    Detector.findTextOccurrences (H := RefHost.browser) [js "X"]
      (Replacer.page
         (Replacer.final
            (Replacer.applyAll (H := RefHost.browser) (js "example.com")
               (engine [rule_hide_X] page_nested))))
    = Some occurrences'
    ∧ (length occurrences' ≤ 3)%nat.
Proof.
  destruct (hiding_shrinks_stats (H := RefHost.browser) [js "X"]
              (js "example.com") (engine [rule_hide_X] page_nested)
              [(Dom.Text 6 (js "aXa"), js "X"); (Dom.Text 8 (js "X"), js "X");
               (Dom.Text 9 (js "X"), js "X")])
    as (occ & Hocc & Hsub); [by repeat constructor | done |].
  exists occ. split; [done|]. by apply sublist_length in Hsub.
Defined.

Lemma shape_setData i s n : shape (Dom.setData i s n) = shape n.
Proof.
  induction n as [j d|j a ch IH] using node_induction; simpl.
  - by destruct (j =? i).
  - f_equal. induction IH as [|c ch Hc _ IHch]; [done|].
    simpl. by rewrite Hc, IHch.
Qed.

Section TextWalk.
Context {H : Host}.
Import Replacer.

Lemma sameShape_refl s : sameShape s s.
Proof. by repeat split. Qed.

Lemma substitute_sameShape s0 textNode parent old new :
  preserves (sameShape s0) (substitute textNode parent old new).
Proof.
  intros s (Hdoc & Hdet & Hhid & Hfresh & Hrules). unfold substitute.
  destruct (bool_decide (new ≠ old)); [|by repeat split].
  destruct (throws m_textContent textNode); [by repeat split|].
  repeat split; [| |done..]; unfold incApplied, setPage; cbn.
  - rewrite <- Hdoc. destruct (Dom.documentElement (page s)); [|done].
    simpl. by rewrite shape_setData.
  - rewrite <- Hdet, List.map_map. apply List.map_ext.
    intros n. apply shape_setData.
Qed.

Lemma applyRuleToTextNode_sameShape s0 textNode rule :
  preserves (sameShape s0) (applyRuleToTextNode textNode rule).
Proof.
  intros s Hs. unfold applyRuleToTextNode.
  destruct (Dom.parentElement textNode (page s)) as [parent|]; [|done].
  destruct (Dom.hasAttribute _ _); [done|].
  destruct (RegExp_gi _) as [regex|]; [|done].
  destruct (Rule.action rule); try done; by apply substitute_sameShape.
Qed.
End TextWalk.

(** X25: a rule without selector whose action is neither [remove] nor
    [hide] only rewrites text.  After [applyRuleByContent] every tree of
    the page has the nodes, attributes and structure it had; no element is
    hidden, created or cut out. *)
Theorem text_rules_keep_structure {H : Host} (rule : Rule.t)
    (s : Replacer.state) :
  Rule.action rule ≠ Action.remove →
  Rule.action rule ≠ Action.hide →
  sameShape s (Replacer.final (Replacer.applyRuleByContent rule s)).
Proof.
  intros Hremove Hhide. unfold Replacer.applyRuleByContent.
  destruct (RegExp_gi _) as [regex|]; [|apply sameShape_refl].
  assert (Replacer.final
            (match Rule.action rule with
             | Action.remove | Action.hide =>
                 Replacer.applyRuleToMatchingElements rule regex s
             | _ => Replacer.replaceMatchingText rule regex s
             end)
          = Replacer.final (Replacer.replaceMatchingText rule regex s))
    as ->.
  { by destruct (Rule.action rule). }
  unfold Replacer.replaceMatchingText.
  destruct (Replacer.body _) as [b|]; [|apply sameShape_refl].
  apply (preserves_forOf_in (sameShape s)); [|apply sameShape_refl].
  intros textNode _. apply applyRuleToTextNode_sameShape.
Qed.

Lemma text_rules_keep_structure_witness :
  sameShape (engine [rule_replace_X_by_Y] page_nested)
    (Replacer.final
       (Replacer.applyRuleByContent (H := RefHost.browser)
          rule_replace_X_by_Y (engine [rule_replace_X_by_Y] page_nested))).
Proof.
  apply (text_rules_keep_structure (H := RefHost.browser)
           rule_replace_X_by_Y (engine [rule_replace_X_by_Y] page_nested));
    by vm_compute.
Defined.

(** X26: [createTag] either fails and leaves the store as it is, or
    appends one enabled tag after the tags there were.  For a name without
    white space at its ends, tag names that were distinct (upper and lower
    case taken as one) stay distinct. *)
Theorem createTag_keeps_names_distinct {H : Host} (name : jsstring)
    (now : nat) (st : Stored.t) :
  JS.trim name = name →
  Manager.distinctNames (orEmpty (Stored.tags st)) →
  match Manager.createTag (Some name) now st with
  | (Manager.success tag, st') =>
      orEmpty (Stored.tags st') = orEmpty (Stored.tags st) ++ [tag]
      ∧ Tag.enabled tag = true
      ∧ Manager.distinctNames (orEmpty (Stored.tags st'))
  | (Manager.failure _, st') => st' = st
  end.
Proof.
  intros Htrim Hdistinct. unfold Manager.createTag.
  destruct (_ || _); [done|].
  destruct (negb _); [done|].
  destruct (existsb _ _) eqn:Hdup; [done|].
  cbn. repeat split.
  unfold Manager.distinctNames. rewrite List.map_app. cbn.
  apply NoDup_app. repeat split; [done| |apply NoDup_singleton].
  intros x Hx ->%list_elem_of_singleton.
  apply list_elem_of_In, in_map_iff in Hx as (t & Ht & Hin).
  assert (existsb
            (λ t, bool_decide (toLowerCase (Tag.name t) = toLowerCase name))
            (orEmpty (Stored.tags st)) = true) as Hyes; [|congruence].
  apply existsb_exists. exists t. split; [done|].
  apply bool_decide_eq_true. by rewrite Ht, Htrim.
Qed.

Lemma createTag_keeps_names_distinct_witness :
  match Manager.createTag (H := RefHost.browser) (Some (js "home")) 7
          work_store with
  | (Manager.success tag, st') =>
      orEmpty (Stored.tags st') = orEmpty (Stored.tags work_store) ++ [tag]
      ∧ Tag.enabled tag = true
      ∧ Manager.distinctNames (H := RefHost.browser)
          (orEmpty (Stored.tags st'))
  | (Manager.failure _, st') => st' = work_store
  end.
Proof.
  apply (createTag_keeps_names_distinct (H := RefHost.browser) (js "home") 7
           work_store); [by vm_compute|].
  apply NoDup_singleton.
Defined.

(** X27: the duplicate test of [createTag] compares the name as typed,
    the tag is stored under the trimmed name.  So a name that differs from
    a stored one by white space at its ends only passes the test, and the
    store ends with two tags of the same name. *)
Theorem createTag_duplicates_trimmed_name {H : Host} (name : jsstring)
    (now : nat) (st : Stored.t) (t : Tag.t) :
  (2 ≤ length name ≤ 30)%nat →
  Manager.isTagName name = true →
  t ∈ orEmpty (Stored.tags st) →
  Tag.name t = JS.trim name →
  (∀ t', t' ∈ orEmpty (Stored.tags st) →
         toLowerCase (Tag.name t') ≠ toLowerCase name) →
  ∃ tag st',
    Manager.createTag (Some name) now st = (Manager.success tag, st')
    ∧ orEmpty (Stored.tags st') = orEmpty (Stored.tags st) ++ [tag]
    ∧ Tag.name tag = Tag.name t
    ∧ ¬ Manager.distinctNames (orEmpty (Stored.tags st')).
Proof.
  intros [Hmin Hmax] Hname Ht Htrim Hfresh. unfold Manager.createTag.
  assert ((length name <? 2)%nat || (30 <? length name)%nat = false) as ->.
  { apply orb_false_iff. split; apply Nat.ltb_ge; lia. }
  rewrite Hname. cbn [negb].
  assert (existsb
            (λ t, bool_decide (toLowerCase (Tag.name t) = toLowerCase name))
            (orEmpty (Stored.tags st)) = false) as ->.
  { apply not_true_iff_false. intros (t' & Hin & Heq)%existsb_exists.
    apply bool_decide_eq_true in Heq.
    by apply (Hfresh t'); [apply list_elem_of_In|]. }
  eexists _, _. split; [done|]. cbn. repeat split; [done|].
  unfold Manager.distinctNames. rewrite List.map_app. cbn.
  intros Hnodup. apply NoDup_app in Hnodup as (_ & Hdisj & _).
  apply (Hdisj (toLowerCase (JS.trim name))).
  - apply list_elem_of_In, in_map_iff. exists t.
    by rewrite Htrim, <- list_elem_of_In.
  - apply list_elem_of_here.
Qed.

Lemma createTag_duplicates_trimmed_name_witness :
  ∃ tag st',
    Manager.createTag (H := RefHost.browser) (Some (js "work ")) 7 work_store
    = (Manager.success tag, st')
    ∧ orEmpty (Stored.tags st') = orEmpty (Stored.tags work_store) ++ [tag]
    ∧ Tag.name tag = js "work"
    ∧ ¬ Manager.distinctNames (H := RefHost.browser)
          (orEmpty (Stored.tags st')).
Proof.
  apply (createTag_duplicates_trimmed_name (H := RefHost.browser)
           (js "work ") 7 work_store
           (Tag.mk (js "tag-work-1") (js "work") true)).
  - vm_compute. lia.
  - by vm_compute.
  - apply list_elem_of_here.
  - by vm_compute.
  - intros t' ->%list_elem_of_singleton. by vm_compute.
Defined.

Lemma squeeze_cons (c : N) (s : jsstring) :
  Utils.squeeze (c :: s)
  = if (c =? 45) && bool_decide (head s = Some 45)
    then Utils.squeeze s else c :: Utils.squeeze s.
Proof.
  simpl. destruct s as [|d s]; simpl; [done|].
  destruct (N.eqb_spec d 45) as [->|Hd]; [done|].
  rewrite bool_decide_eq_false_2; [done|congruence].
Qed.

Lemma hyphenRun_cons (c : N) (s : jsstring) :
  Utils.hyphenRun (c :: s)
  = (c =? 45) && bool_decide (head s = Some 45) || Utils.hyphenRun s.
Proof.
  simpl. destruct s as [|d s]; simpl; [done|].
  destruct (N.eqb_spec d 45) as [->|Hd]; [done|].
  rewrite bool_decide_eq_false_2; [done|congruence].
Qed.

Lemma squeeze_head (s : jsstring) : head (Utils.squeeze s) = head s.
Proof.
  induction s as [|c s IH]; [done|]. rewrite squeeze_cons.
  destruct (N.eqb_spec c 45) as [->|Hc]; [|done].
  destruct (bool_decide (head s = Some 45)) eqn:Hs; [|done].
  apply bool_decide_eq_true in Hs. simpl. by rewrite IH.
Qed.

Lemma squeeze_sub (s : jsstring) : Utils.squeeze s `sublist_of` s.
Proof.
  induction s as [|c s IH]; [done|]. rewrite squeeze_cons.
  destruct (_ && _); by constructor.
Qed.

Lemma squeeze_no_run (s : jsstring) :
  Utils.hyphenRun (Utils.squeeze s) = false.
Proof.
  induction s as [|c s IH]; [done|]. rewrite squeeze_cons.
  destruct ((c =? 45) && bool_decide (head s = Some 45)) eqn:Hrun; [done|].
  by rewrite hyphenRun_cons, IH, squeeze_head, Hrun.
Qed.

Lemma take_no_run (n : nat) (s : jsstring) :
  Utils.hyphenRun s = false → Utils.hyphenRun (take n s) = false.
Proof.
  revert s. induction n as [|n IH]; intros [|c s]; try done.
  rewrite hyphenRun_cons. intros [Hhere Hrest]%orb_false_iff.
  cbn [take]. rewrite hyphenRun_cons, (IH _ Hrest), orb_false_r.
  destruct (c =? 45); [|done]. simpl in *.
  apply bool_decide_eq_false in Hhere. apply bool_decide_eq_false_2.
  intros Hhead. apply Hhere. by destruct n, s.
Qed.

(** X28: whatever the string, the shared [sanitizeForBranch] yields at
    most 30 characters, each a lower-case letter, a digit or a hyphen, and
    never two hyphens in a row. *)
Theorem branch_name_is_clean {H : Host} (str : jsstring) :
  (length (Utils.sanitizeForBranch str) ≤ 30)%nat
  ∧ Forall (λ c, Utils.isBranchChar c = true) (Utils.sanitizeForBranch str)
  ∧ Utils.hyphenRun (Utils.sanitizeForBranch str) = false.
Proof.
  unfold Utils.sanitizeForBranch. repeat split.
  - rewrite length_take. lia.
  - apply Forall_forall. intros c Hc.
    eapply elem_of_sublist in Hc;
      [|etrans; [apply sublist_take|apply squeeze_sub]].
    apply list_elem_of_In, in_map_iff in Hc as (d & <- & _).
    by destruct (Utils.isBranchChar d) eqn:Hd.
  - apply take_no_run, squeeze_no_run.
Qed.

Section Grouping.
Import Options.

Lemma fold_addToGroup_None rules : fold_left addToGroup rules None = None.
Proof. by induction rules. Qed.

Lemma groupByHostname_from (rules : list Rule.t) :
  ∀ groups : gmap jsstring (list Rule.t),
    (∀ h, h ∈ objectPrototypeKeys → groups !! h = None) →
    match fold_left addToGroup rules (Some groups) with
    | Some groups' =>
        Forall (λ r, hostOf r ∉ objectPrototypeKeys) rules
        ∧ ∀ h, groups' !! h = joined (groups !! h) (rulesOf h rules)
    | None => Exists (λ r, hostOf r ∈ objectPrototypeKeys) rules
    end.
Proof.
  induction rules as [|rule rules IH]; intros groups Hinv.
  - simpl. split; [done|]. intros h.
    destruct (groups !! h); simpl; [by rewrite app_nil_r|done].
  - cbn [fold_left]. unfold addToGroup at 2.
    destruct (groups !! hostOf rule) as [l|] eqn:Hl.
    + assert (hostOf rule ∉ objectPrototypeKeys) as Hok.
      { intros Hin. by rewrite (Hinv _ Hin) in Hl. }
      specialize (IH (<[hostOf rule := l ++ [rule]]> groups)).
      destruct (fold_left _ _ _) as [groups'|].
      * destruct IH as [Hall Hgroups].
        { intros h Hh. rewrite lookup_insert_ne; [by apply Hinv|].
          by intros <-. }
        split; [by constructor|]. intros h. rewrite Hgroups.
        unfold rulesOf. cbn [List.filter].
        destruct (decide (hostOf rule = h)) as [<-|Hne].
        -- rewrite lookup_insert_eq, Hl, bool_decide_eq_true_2 by done.
           simpl. by rewrite <- app_assoc.
        -- by rewrite lookup_insert_ne, bool_decide_eq_false_2.
      * apply Exists_cons_tl, IH. intros h Hh.
        rewrite lookup_insert_ne; [by apply Hinv|]. by intros <-.
    + destruct (bool_decide _) eqn:Hproto.
      * rewrite fold_addToGroup_None. apply Exists_cons_hd.
        by apply bool_decide_eq_true in Hproto.
      * apply bool_decide_eq_false in Hproto.
        specialize (IH (<[hostOf rule := [rule]]> groups)).
        destruct (fold_left _ _ _) as [groups'|].
        -- destruct IH as [Hall Hgroups].
           { intros h Hh. rewrite lookup_insert_ne; [by apply Hinv|].
             by intros <-. }
           split; [by constructor|]. intros h. rewrite Hgroups.
           unfold rulesOf. cbn [List.filter].
           destruct (decide (hostOf rule = h)) as [<-|Hne].
           ++ by rewrite lookup_insert_eq, Hl, bool_decide_eq_true_2.
           ++ by rewrite lookup_insert_ne, bool_decide_eq_false_2.
        -- apply Exists_cons_tl, IH. intros h Hh.
           rewrite lookup_insert_ne; [by apply Hinv|]. by intros <-.
Qed.
End Grouping.

(** X29: the options page lists every rule once, under its host name
    ([*] when it has none), in the stored order: the group of a host is
    the rules of that host, and no group is empty.  The grouping fails with
    a [TypeError] exactly when some rule's host name is a property name of
    [Object.prototype], such as [constructor]. *)
Theorem groupByHostname_partitions (rules : list Rule.t) :
  match Options.groupByHostname rules with
  | Some groups =>
      Forall (λ r, Options.hostOf r ∉ Options.objectPrototypeKeys) rules
      ∧ ∀ host,
          groups !! host
          = match Options.rulesOf host rules with
            | [] => None
            | l => Some l
            end
  | None =>
      Exists (λ r, Options.hostOf r ∈ Options.objectPrototypeKeys) rules
  end.
Proof.
  unfold Options.groupByHostname.
  pose proof (groupByHostname_from rules ∅) as Hfrom.
  destruct (fold_left _ _ _) as [groups|]; [|by apply Hfrom].
  destruct Hfrom as [Hall Hgroups]; [done|]. split; [done|].
  intros host. rewrite Hgroups, lookup_empty. simpl.
  by destruct (Options.rulesOf host rules).
Qed.
